(** * TORD: Topological Oscillator with Repair Delay

    A shallow embedding of the simulation engine of the governance panels:
    [models/tord_core.py] (the delayed reference model: perturbation,
    history lookup, derivatives, simulate) and [models/tord_jax.py] (the
    metrics and the fitting loop).

    Numbers.  Python and JAX floats are read as real numbers: arithmetic is
    exact, so rounding, overflow and signed zeros are outside the model.
    What floating point adds to the control flow is written out where the
    source can reach it: Python's [/] on floats raises [ZeroDivisionError]
    on a zero divisor, and a JAX reduction over an empty slice yields NaN. *)

From Stdlib Require Import Reals Lra Lia String List ZArith Bool.
Import ListNotations.
Open Scope R_scope.

(** ** Python runtime: exceptions, results, float comparisons *)

Module Py.

Inductive exn : Type :=
| ValueError
| ZeroDivisionError
| IndexError
| TypeError.

Inductive result (A : Type) : Type :=
| Ok (a : A)
| Raise (e : exn).
Arguments Ok {A} a.
Arguments Raise {A} e.

Definition bind {A B} (r : result A) (k : A -> result B) : result B :=
  match r with
  | Ok a => k a
  | Raise e => Raise e
  end.

Definition fmap {A B} (f : A -> B) (r : result A) : result B :=
  bind r (fun a => Ok (f a)).

(** [a <= b] and [a < b] on floats, as booleans. *)
Definition Rleb (a b : R) : bool := if Rle_dec a b then true else false.
Definition Rltb (a b : R) : bool := if Rlt_dec a b then true else false.

(** [a / b] on Python floats. *)
Definition truediv (a b : R) : result R :=
  if Req_dec_T b 0 then Raise ZeroDivisionError else Ok (a / b).

(** [l[i]] for a non-negative index. *)
Definition getitem {A} (l : list A) (i : nat) : result A :=
  match nth_error l i with
  | Some v => Ok v
  | None => Raise IndexError
  end.

End Py.
Import Py.

Notation "x <- r ;; k" := (Py.bind r (fun x => k))
  (at level 61, r at next level, right associativity).

(** ** numpy *)

(** [np.linspace(start, stop, num)] with the default [endpoint=True]:
    a negative [num] raises [ValueError]; otherwise sample [i] is
    [i * step + start] with [step = (stop - start) / (num - 1)], and the last
    sample is overwritten with [stop] when [num > 1].  With [num <= 1] there
    is no step and the samples are [i * (stop - start) + start]. *)
Definition np_linspace (start stop : R) (num : Z) : result (list R) :=
  if (num <? 0)%Z then Raise ValueError
  else
    let div := (num - 1)%Z in
    let delta := stop - start in
    let arange := map INR (seq 0 (Z.to_nat num)) in
    let y :=
      if (0 <? div)%Z
      then map (fun i => i * (delta / IZR div) + start) arange
      else map (fun i => i * delta + start) arange in
    Ok (if (1 <? num)%Z then removelast y ++ [stop] else y).

(** ** models/tord_core.py *)

Record TORDParameters : Type := mkParams {
  omega_x : R;
  omega_y : R;
  gamma_x : R;
  gamma_y : R;
  alpha : R;
  beta : R;
  kappa : R;
  lambda_ : R;
  eta : R;
  mu : R
}.

(** The dataclass defaults. *)
Definition TORDParameters_default : TORDParameters :=
  {| omega_x := 2 * PI / 24;
     omega_y := 2 * PI / 4;
     gamma_x := 0.1;
     gamma_y := 0.15;
     alpha := 0.3;
     beta := 0.4;
     kappa := 0.05;
     lambda_ := 0.02;
     eta := 0.5;
     mu := 0.2 |}.

(** [TORDParameters(eta=e)] over the fields of [q]: the keyword override
    the tests use. *)
Definition with_eta (q : TORDParameters) (e : R) : TORDParameters :=
  {| omega_x := omega_x q; omega_y := omega_y q;
     gamma_x := gamma_x q; gamma_y := gamma_y q;
     alpha := alpha q; beta := beta q;
     kappa := kappa q; lambda_ := lambda_ q;
     eta := e; mu := mu q |}.

(** The state vector [[x, v_x, y, v_y, theta]]. *)
Record State : Type := mkState {
  st_x : R;
  st_vx : R;
  st_y : R;
  st_vy : R;
  st_theta : R
}.

(** A [TORDModel] instance: its parameters and the three history lists. *)
Record TORDModel : Type := mkModel {
  p : TORDParameters;
  history_x : list R;
  history_y : list R;
  history_t : list R
}.

(** [TORDModel.__init__] *)
Definition TORDModel_init (params : TORDParameters) : TORDModel :=
  {| p := params; history_x := []; history_y := []; history_t := [] |}.

(** [TORDModel.perturbation] *)
Definition perturbation (t : R) (pattern : string) : R :=
  if (pattern =? "pulse")%string then
    if Rleb 5 t && Rleb t 5.5 then 1 else 0
  else if (pattern =? "stress")%string then
    let period := 12 in
    if Rltb 0 (sin (2 * PI * t / period))
    then 0.8 * sin (2 * PI * t / period)
    else 0
  else if (pattern =? "chronic")%string then
    0.3 * (1 + 0.1 * sin (2 * PI * t / 24))
  else if (pattern =? "recall")%string then
    let recall_times := [10; 20; 30] in
    if existsb (fun tr => Rltb (Rabs (t - tr)) 0.2) recall_times
    then 1.2
    else 0
  else 0.

(** The [for i in range(len(t_hist) - 1)] loop of [_get_delayed], over the
    indices still to visit: [Some r] when an iteration returns (or raises),
    [None] when the loop runs to its end. *)
Fixpoint bracket_loop (t_delay : R) (t_hist y_hist : list R)
    (range : list nat) : option (result R) :=
  match range with
  | [] => None
  | i :: range' =>
      match nth_error t_hist i, nth_error t_hist (i + 1) with
      | Some t_i, Some t_i1 =>
          if Rleb t_i t_delay && Rleb t_delay t_i1 then
            Some (a <- truediv (t_delay - t_i) (t_i1 - t_i) ;;
                  y_i <- getitem y_hist i ;;
                  y_i1 <- getitem y_hist (i + 1) ;;
                  Ok ((1 - a) * y_i + a * y_i1))
          else bracket_loop t_delay t_hist y_hist range'
      | _, _ => Some (Raise IndexError)
      end
  end.

(** [TORDModel._get_delayed] *)
Definition _get_delayed (t_delay : R) (t_hist y_hist : list R)
    (default : R) : result R :=
  match t_hist with
  | [] => Ok default
  | t_0 :: _ =>
      if Rltb t_delay t_0 then Ok default
      else
        match bracket_loop t_delay t_hist y_hist
                (seq 0 (length t_hist - 1)) with
        | Some r => r
        | None =>
            match y_hist with
            | [] => Ok default
            | _ :: _ => Ok (last y_hist 0)
            end
        end
  end.

(** The three [append] calls at the head of [derivatives]. *)
Definition record_sample (m : TORDModel) (t x y : R) : TORDModel :=
  {| p := p m;
     history_x := history_x m ++ [x];
     history_y := history_y m ++ [y];
     history_t := history_t m ++ [t] |}.

(** [TORDModel.derivatives]: the three appends come first, so the model
    after the call carries the new sample also when the lookup raises. *)
Definition derivatives (m : TORDModel) (state : State) (t : R)
    (u_pattern : string) : result State * TORDModel :=
  let x := st_x state in
  let v_x := st_vx state in
  let y := st_y state in
  let v_y := st_vy state in
  let theta := st_theta state in
  let m' := record_sample m t x y in
  (y_delayed <- _get_delayed (t - eta (p m')) (history_t m') (history_y m') y ;;
   let u_t := perturbation t u_pattern in
   let dv_x_dt :=
     - (omega_x (p m') ^ 2) * x - gamma_x (p m') * v_x
     - alpha (p m') * y_delayed + mu (p m') * u_t in
   let dv_y_dt :=
     - (omega_y (p m') ^ 2) * y - gamma_y (p m') * v_y + beta (p m') * x in
   let dtheta_dt := kappa (p m') * x ^ 2 - lambda_ (p m') * theta in
   Ok (mkState v_x dv_x_dt v_y dv_y_dt dtheta_dt),
   m').

(** *** The integrator's side of [simulate]

    [scipy.integrate.odeint] is not repository code.  What [simulate] relies
    on is its calling convention: given [func], [y0] and the grid [t] it
    calls [func(y, t)] any number of times, at states and times of its own
    choosing that may depend on the values returned so far, and then
    returns one state per grid point (or fails); an exception raised by
    [func] ends the run.  A [Solver] is such a strategy. *)
Inductive Solver (A : Type) : Type :=
| Done (r : result A)
| Func (y : State) (t : R) (k : State -> Solver A).
Arguments Done {A} r.
Arguments Func {A} y t k.

Definition Integrator : Type := State -> list R -> Solver (list State).

(** Running a solver against [self.derivatives] with [args=(u_pattern,)]. *)
Fixpoint run {A} (s : Solver A) (u_pattern : string) (m : TORDModel)
    : result A * TORDModel :=
  match s with
  | Done r => (r, m)
  | Func y t k =>
      match derivatives m y t u_pattern with
      | (Ok d, m') => run (k d) u_pattern m'
      | (Raise e, m') => (Raise e, m')
      end
  end.

(** The calls [func(y, t)] made during that run, in call order. *)
Fixpoint calls {A} (s : Solver A) (u_pattern : string) (m : TORDModel)
    : list (State * R) :=
  match s with
  | Done _ => []
  | Func y t k =>
      (y, t) ::
      match derivatives m y t u_pattern with
      | (Ok d, m') => calls (k d) u_pattern m'
      | (Raise _, _) => []
      end
  end.

(** The "Reset history" block of [simulate]. *)
Definition reset_history (m : TORDModel) : TORDModel :=
  {| p := p m; history_x := []; history_y := []; history_t := [] |}.

Definition default_initial_state : State := mkState 0.1 0 0.05 0 1.

(** [TORDModel.simulate], over the integrator [odeint]. *)
Definition simulate (odeint : Integrator) (m : TORDModel) (t_span : R * R)
    (n_points : Z) (initial_state : option State) (u_pattern : string)
    : result (list R * list State) * TORDModel :=
  let m0 := reset_history m in
  let initial_state :=
    match initial_state with
    | None => default_initial_state
    | Some s => s
    end in
  match np_linspace (fst t_span) (snd t_span) n_points with
  | Raise e => (Raise e, m0)
  | Ok t =>
      let (r, m') := run (odeint initial_state t) u_pattern m0 in
      (fmap (fun states => (t, states)) r, m')
  end.

(** The calls to [derivatives] during [simulate]. *)
Definition simulate_calls (odeint : Integrator) (m : TORDModel)
    (t_span : R * R) (n_points : Z) (initial_state : option State)
    (u_pattern : string) : list (State * R) :=
  let initial_state :=
    match initial_state with
    | None => default_initial_state
    | Some s => s
    end in
  match np_linspace (fst t_span) (snd t_span) n_points with
  | Raise _ => []
  | Ok t => calls (odeint initial_state t) u_pattern (reset_history m)
  end.

(** *** Trajectory export *)

(** A cell of a CSV row: a header name or a number. *)
Inductive cell : Type :=
| Text (s : string)
| Number (x : R).

(** [states[i].tolist()] *)
Definition tolist (s : State) : list R :=
  [st_x s; st_vx s; st_y s; st_vy s; st_theta s].

Definition csv_header : list cell :=
  [Text "time"; Text "x_accessibility"; Text "v_x";
   Text "y_repair"; Text "v_y"; Text "theta_boundary"].

(** The [for i in range(len(t))] loop of [save_trajectory]: the rows written
    so far stay in the file when an index is out of range. *)
Fixpoint write_rows (t : list R) (states : list State) (range : list nat)
    (rows : list (list cell)) : result unit * list (list cell) :=
  match range with
  | [] => (Ok tt, rows)
  | i :: range' =>
      match getitem t i with
      | Raise e => (Raise e, rows)
      | Ok t_i =>
          match getitem states i with
          | Raise e => (Raise e, rows)
          | Ok s_i =>
              write_rows t states range'
                (rows ++ [map Number ([t_i] ++ tolist s_i)])
          end
      end
  end.

(** [TORDModel.save_trajectory]: the outcome and the rows of the file. *)
Definition save_trajectory (t : list R) (states : list State)
    : result unit * list (list cell) :=
  write_rows t states (seq 0 (length t)) [csv_header].

(** *** Scenario presets *)

Definition get_uv_triage_params : TORDParameters :=
  let params := TORDParameters_default in
  {| omega_x := omega_x params; omega_y := omega_y params;
     gamma_x := gamma_x params; gamma_y := gamma_y params;
     alpha := 0.4; beta := 0.6;
     kappa := kappa params; lambda_ := lambda_ params;
     eta := 0.33; mu := mu params |}.

Definition get_engram_params : TORDParameters :=
  let params := TORDParameters_default in
  {| omega_x := 2 * PI / 48; omega_y := omega_y params;
     gamma_x := gamma_x params; gamma_y := gamma_y params;
     alpha := alpha params; beta := beta params;
     kappa := 0.15; lambda_ := 0.01;
     eta := eta params; mu := mu params |}.

Definition get_hpa_stress_params : TORDParameters :=
  let params := TORDParameters_default in
  {| omega_x := omega_x params; omega_y := omega_y params;
     gamma_x := gamma_x params; gamma_y := 0.2;
     alpha := alpha params; beta := beta params;
     kappa := kappa params; lambda_ := 0.04;
     eta := eta params; mu := 0.35 |}.

Definition get_development_params : TORDParameters :=
  let params := TORDParameters_default in
  {| omega_x := 2 * PI / 12; omega_y := omega_y params;
     gamma_x := gamma_x params; gamma_y := gamma_y params;
     alpha := alpha params; beta := beta params;
     kappa := 0.20; lambda_ := 0.005;
     eta := eta params; mu := mu params |}.

(** *** Two integrators

    Modelled from the spec: the integration scheme, which the source takes
    from scipy.  The spec (4.4) admits "any general-purpose explicit or
    implicit fixed/adaptive integrator producing state values at each grid
    point".  [euler] is the explicit fixed-step scheme with one evaluation
    per step; [heun] is the two-stage predictor-corrector scheme, the
    simplest Adams predictor-corrector pair (Euler predictor, trapezoidal
    corrector), of the family scipy's LSODA uses: it evaluates [func] at
    both ends of every step. *)
Module Integrators.

(** [y + h * d], componentwise. *)
Definition axpy (h : R) (d y : State) : State :=
  mkState (st_x y + h * st_x d) (st_vx y + h * st_vx d)
          (st_y y + h * st_y d) (st_vy y + h * st_vy d)
          (st_theta y + h * st_theta d).

Fixpoint map_solver {A B} (f : A -> B) (s : Solver A) : Solver B :=
  match s with
  | Done r => Done (fmap f r)
  | Func y t k => Func y t (fun d => map_solver f (k d))
  end.

Fixpoint euler_from (y : State) (t : R) (grid : list R)
    : Solver (list State) :=
  match grid with
  | [] => Done (Ok [y])
  | t' :: grid' =>
      Func y t (fun d =>
        map_solver (cons y) (euler_from (axpy (t' - t) d y) t' grid'))
  end.

Definition euler : Integrator := fun y0 grid =>
  match grid with
  | [] => Done (Ok [])
  | t0 :: grid' => euler_from y0 t0 grid'
  end.

Fixpoint heun_from (y : State) (t : R) (grid : list R)
    : Solver (list State) :=
  match grid with
  | [] => Done (Ok [y])
  | t' :: grid' =>
      Func y t (fun d1 =>
        Func (axpy (t' - t) d1 y) t' (fun d2 =>
          map_solver (cons y)
            (heun_from (axpy ((t' - t) / 2) d2 (axpy ((t' - t) / 2) d1 y))
               t' grid')))
  end.

Definition heun : Integrator := fun y0 grid =>
  match grid with
  | [] => Done (Ok [])
  | t0 :: grid' => heun_from y0 t0 grid'
  end.

End Integrators.

(** ** jax.numpy

    A JAX float that may be NaN: [None] is NaN.  Only the reductions that can
    produce NaN from finite data (a mean over no elements) return it. *)
Module Jnp.

Definition jfloat : Type := option R.

Definition sum (l : list R) : R := fold_right Rplus 0 l.

(** [jnp.dot] of two 1-D arrays; shapes that differ raise [TypeError]. *)
Definition dot (x y : list R) : result R :=
  if (length x =? length y)%nat
  then Ok (sum (map (fun ab => fst ab * snd ab) (combine x y)))
  else Raise TypeError.

(** [jnp.linalg.norm] of a 1-D array. *)
Definition norm (x : list R) : R := sqrt (sum (map (fun a => a * a) x)).

(** [jnp.mean]: the mean over no elements is NaN. *)
Definition mean (l : list R) : jfloat :=
  match l with
  | [] => None
  | _ :: _ => Some (sum l / INR (length l))
  end.

(** [jnp.std] (population standard deviation, [ddof=0]). *)
Definition std (l : list R) : jfloat :=
  match mean l with
  | None => None
  | Some m => option_map sqrt (mean (map (fun a => (a - m) ^ 2) l))
  end.

(** [arr[start:end]] with Python's reading of the bounds: a negative bound
    counts from the end, and both are clamped to the array. *)
Definition slice_bound (n : nat) (k : Z) : nat :=
  if (k <? 0)%Z then Z.to_nat (Z.max 0 (Z.of_nat n + k))
  else Nat.min (Z.to_nat k) n.

Definition slice {A} (arr : list A) (start stop : Z) : list A :=
  let s := slice_bound (length arr) start in
  let e := slice_bound (length arr) stop in
  firstn (e - s) (skipn s arr).

(** [arr.at[i].set(v)] for an index in range (out of range, JAX drops the
    update). *)
Fixpoint at_set {A} (arr : list A) (i : nat) (v : A) : list A :=
  match arr, i with
  | [], _ => []
  | _ :: arr', O => v :: arr'
  | a :: arr', S i' => a :: at_set arr' i' v
  end.

(** Broadcasting [a - b] of 1-D arrays. *)
Definition sub (a b : list R) : result (list R) :=
  if (length a =? length b)%nat
  then Ok (map (fun ab => fst ab - snd ab) (combine a b))
  else match a, b with
       | [a0], _ => Ok (map (fun v => a0 - v) b)
       | _, [b0] => Ok (map (fun v => v - b0) a)
       | _, _ => Raise TypeError
       end.

End Jnp.

(** ** models/tord_jax.py

    [@jit] traces the arguments of a call.  On a function of arrays only
    ([compute_coherence], [compute_repair_efficiency]) that changes nothing,
    and the function is the Python function it wraps.
    [compute_boundary_stability] is modelled with the tracing of its
    [window] argument.  [TORDModelJAX.simulate] is modelled by its body: as
    decorated, a call traces [self] and the string [u_pattern] and raises
    [TypeError] before the body runs, so what is proved of [simulate],
    [loss_fn] and [run_with_param] is proved of the body. *)
Module Jax.

Record TORDParamsJAX : Type := mkParamsJAX {
  omega_x : R;
  omega_y : R;
  gamma_x : R;
  gamma_y : R;
  alpha : R;
  beta : R;
  kappa : R;
  lambda_ : R;
  eta : R;
  mu : R
}.

Definition perturbation_pulse (t : R) : R :=
  if Rleb 5 t && Rleb t 5.5 then 1 else 0.

Definition perturbation_stress (t : R) : R :=
  let period := 12 in
  let val := sin (2 * PI * t / period) in
  if Rltb 0 val then 0.8 * val else 0.

Definition perturbation_chronic (t : R) : R :=
  0.3 * (1 + 0.1 * sin (2 * PI * t / 24)).

Definition perturbation_recall (t : R) : R :=
  let recall_times := [10; 20; 30] in
  let diffs := map (fun tr => Rabs (t - tr)) recall_times in
  if existsb (fun d => Rltb d 0.2) diffs then 1.2 else 0.

Definition get_perturbation_fn (pattern : string) : R -> R :=
  if (pattern =? "pulse")%string then perturbation_pulse
  else if (pattern =? "stress")%string then perturbation_stress
  else if (pattern =? "chronic")%string then perturbation_chronic
  else if (pattern =? "recall")%string then perturbation_recall
  else fun _ => 0.

(** [TORDModelJAX.derivatives_no_delay] *)
Definition derivatives_no_delay (q : TORDParamsJAX) (state : State) (t : R)
    (u_fn : R -> R) : State :=
  let x := st_x state in
  let v_x := st_vx state in
  let y := st_y state in
  let v_y := st_vy state in
  let theta := st_theta state in
  let u_t := u_fn t in
  let dv_x_dt :=
    - (omega_x q ^ 2) * x - gamma_x q * v_x - alpha q * y + mu q * u_t in
  let dv_y_dt := - (omega_y q ^ 2) * y - gamma_y q * v_y + beta q * x in
  let dtheta_dt := kappa q * x ^ 2 - lambda_ q * theta in
  mkState v_x dv_x_dt v_y dv_y_dt dtheta_dt.

(** [jax.experimental.ode.odeint] on a pure right-hand side: a function of
    [func], [y0] and the grid. *)
Definition OdeInt : Type :=
  (State -> R -> State) -> State -> list R -> result (list State).

(** [jax.grad]: from a scalar function of the parameters to the function
    giving its gradient, a parameter set of the same shape. *)
Definition Grad : Type :=
  (TORDParamsJAX -> result Jnp.jfloat) ->
  TORDParamsJAX -> result TORDParamsJAX.

(** [TORDModelJAX.simulate]; [jnp.linspace] builds the grid as
    [np.linspace] does. *)
Definition simulate (odeint : OdeInt) (q : TORDParamsJAX) (t_span : R * R)
    (n_points : Z) (initial_state : State) (u_pattern : string)
    : result (list R * list State) :=
  t <- np_linspace (fst t_span) (snd t_span) n_points ;;
  let u_fn := get_perturbation_fn u_pattern in
  states <- odeint (fun state t => derivatives_no_delay q state t u_fn)
              initial_state t ;;
  Ok (t, states).

(** [compute_coherence] *)
Definition compute_coherence (x y : list R) : result R :=
  d <- Jnp.dot x y ;;
  let dot_prod := Rabs d in
  let norm_x := Jnp.norm x in
  let norm_y := Jnp.norm y in
  Ok (dot_prod / (norm_x * norm_y + 1e-10)).

(** The inner [rolling_std] of [compute_boundary_stability]. *)
Definition rolling_std (arr : list R) (w : Z) : list Jnp.jfloat :=
  let n := length arr in
  let result := repeat (Some 0) n in
  fold_left
    (fun result i =>
       let start := Z.max 0 (Z.of_nat i - w / 2) in
       let stop := Z.min (Z.of_nat n) (Z.of_nat i + w / 2) in
       Jnp.at_set result i (Jnp.std (Jnp.slice arr start stop)))
    (seq 0 n) result.

(** The body of [compute_boundary_stability], for a [window] that is a
    Python int. *)
Definition boundary_stability_body (theta : list R) (window : Z)
    : list Jnp.jfloat :=
  let std_theta := rolling_std theta window in
  let stability := map (option_map (fun s => 1 / (1 + s))) std_theta in
  stability.

(** [compute_boundary_stability] as decorated.  [@jit] is given no
    [static_argnums], so a [window] that the caller passes ([Some w]) is a
    tracer: at the first index [max(0, i - w // 2)] asks it for a truth
    value, which raises [TracerBoolConversionError], a [TypeError]; an empty
    series has no first index.  A call that leaves [window] out ([None])
    runs the body with the default 100, a Python int. *)
Definition compute_boundary_stability (theta : list R) (window : option Z)
    : result (list Jnp.jfloat) :=
  match window with
  | None => Ok (boundary_stability_body theta 100)
  | Some _ =>
      match theta with
      | [] => Ok []
      | _ :: _ => Raise TypeError
      end
  end.

(** The inner [loss_fn] of [fit_to_data]. *)
Definition loss_fn (odeint : OdeInt) (data_t data_x : list R)
    (params : TORDParamsJAX) : result Jnp.jfloat :=
  let initial_state := mkState 0.1 0 0.05 0 1 in
  t_first <- getitem data_t 0 ;;
  t_last <- getitem data_t (length data_t - 1) ;;
  ts <- simulate odeint params (t_first, t_last) (Z.of_nat (length data_t))
          initial_state "pulse" ;;
  let x_model := map st_x (snd ts) in
  diff <- Jnp.sub x_model data_x ;;
  let mse := Jnp.mean (map (fun d => d ^ 2) diff) in
  Ok mse.

(** One line of output: [Iteration {i}: Loss = {loss_val}]. *)
Definition line : Type := (nat * Jnp.jfloat)%type.

(** The [for i in range(n_iterations)] loop of [fit_to_data]: the state is
    [params] and what has been printed so far.  ([learning_rate] is
    assigned before the loop and never read.) *)
Fixpoint fit_loop (odeint : OdeInt) (grad : Grad) (data_t data_x : list R)
    (range : list nat) (params : TORDParamsJAX) (out : list line)
    : result TORDParamsJAX * list line :=
  match range with
  | [] => (Ok params, out)
  | i :: range' =>
      match loss_fn odeint data_t data_x params with
      | Raise e => (Raise e, out)
      | Ok loss_val =>
          match grad (loss_fn odeint data_t data_x) params with
          | Raise e => (Raise e, out)
          | Ok grads =>
              let out' :=
                if (i mod 10 =? 0)%nat then out ++ [(i, loss_val)]
                else out in
              fit_loop odeint grad data_t data_x range' params out'
          end
      end
  end.

(** [fit_to_data]: the final parameters (or the exception raised) and the
    lines printed. *)
Definition fit_to_data (odeint : OdeInt) (grad : Grad)
    (data_t data_x : list R) (initial_params : TORDParamsJAX)
    (n_iterations : Z) : result TORDParamsJAX * list line :=
  let params := initial_params in
  fit_loop odeint grad data_t data_x (seq 0 (Z.to_nat n_iterations))
    params [].

(** [compute_repair_efficiency] *)
Definition compute_repair_efficiency (y u : list R) : R :=
  let total_repair := Jnp.sum (map Rabs y) in
  let total_damage := Jnp.sum (map Rabs u) in
  total_repair / (total_damage + 1e-10).





(** The defaults of [TORDParamsJAX.__init__]. *)
Definition TORDParamsJAX_default : TORDParamsJAX :=
  {| omega_x := 2 * PI / 24; omega_y := 2 * PI / 4;
     gamma_x := 0.1; gamma_y := 0.15; alpha := 0.3; beta := 0.4;
     kappa := 0.05; lambda_ := 0.02; eta := 0.5; mu := 0.2 |}.



(** [TORDParamsJAX.tree_flatten]: the children and the auxiliary data. *)
Definition tree_flatten (q : TORDParamsJAX) : list R * unit :=
  let children :=
    [omega_x q; omega_y q; gamma_x q; gamma_y q; alpha q; beta q;
     kappa q; lambda_ q; eta q; mu q] in
  let aux_data := tt in
  (children, aux_data).

(** [TORDParamsJAX.tree_unflatten]: [cls] called with the children as
    positional arguments; more than ten raise [TypeError], a missing one
    takes its default. *)
Definition tree_unflatten (aux_data : unit) (children : list R)
    : result TORDParamsJAX :=
  if (10 <? length children)%nat then Raise TypeError
  else
    let arg i dflt := nth i children dflt in
    Ok {| omega_x := arg 0%nat (omega_x TORDParamsJAX_default);
          omega_y := arg 1%nat (omega_y TORDParamsJAX_default);
          gamma_x := arg 2%nat (gamma_x TORDParamsJAX_default);
          gamma_y := arg 3%nat (gamma_y TORDParamsJAX_default);
          alpha := arg 4%nat (alpha TORDParamsJAX_default);
          beta := arg 5%nat (beta TORDParamsJAX_default);
          kappa := arg 6%nat (kappa TORDParamsJAX_default);
          lambda_ := arg 7%nat (lambda_ TORDParamsJAX_default);
          eta := arg 8%nat (eta TORDParamsJAX_default);
          mu := arg 9%nat (mu TORDParamsJAX_default) |}.

End Jax.

(** ** Properties used in the statements *)

(** A history whose recorded times strictly increase with the index. *)
Definition increasing (l : list R) : Prop :=
  forall i j a b, (i < j)%nat ->
    nth_error l i = Some a -> nth_error l j = Some b -> a < b.

(** The linear interpolation between the samples [(t_i, y_i)] and
    [(t_i1, y_i1)], at [t]. *)
Definition interpolate (t t_i t_i1 y_i y_i1 : R) : R :=
  let a := (t - t_i) / (t_i1 - t_i) in
  (1 - a) * y_i + a * y_i1.

(** The sum of squares of a series, the square of its norm. *)
Definition sumsq (x : list R) : R := Jnp.sum (map (fun a => a * a) x).

(** A history whose recorded times never decrease with the index. *)
Definition nondecreasing (l : list R) : Prop :=
  forall i j a b, (i <= j)%nat ->
    nth_error l i = Some a -> nth_error l j = Some b -> a <= b.

(** The parameters of the delayed model, as parameters of the JAX model. *)
Definition to_jax (q : TORDParameters) : Jax.TORDParamsJAX :=
  {| Jax.omega_x := omega_x q; Jax.omega_y := omega_y q;
     Jax.gamma_x := gamma_x q; Jax.gamma_y := gamma_y q;
     Jax.alpha := alpha q; Jax.beta := beta q;
     Jax.kappa := kappa q; Jax.lambda_ := lambda_ q;
     Jax.eta := eta q; Jax.mu := mu q |}.

(** * Float comparisons *)

Lemma Rleb_true (a b : R) : a <= b -> Rleb a b = true.
Proof. intro H. unfold Rleb. destruct (Rle_dec a b); [reflexivity | contradiction]. Qed.

Lemma Rleb_false (a b : R) : b < a -> Rleb a b = false.
Proof. intro H. unfold Rleb. destruct (Rle_dec a b); [lra | reflexivity]. Qed.

Lemma Rltb_true (a b : R) : a < b -> Rltb a b = true.
Proof. intro H. unfold Rltb. destruct (Rlt_dec a b); [reflexivity | contradiction]. Qed.

Lemma Rltb_false (a b : R) : b <= a -> Rltb a b = false.
Proof. intro H. unfold Rltb. destruct (Rlt_dec a b); [lra | reflexivity]. Qed.

Lemma Rleb_spec (a b : R) : reflect (a <= b) (Rleb a b).
Proof. unfold Rleb. destruct (Rle_dec a b); constructor; assumption. Qed.

Lemma Rltb_spec (a b : R) : reflect (a < b) (Rltb a b).
Proof. unfold Rltb. destruct (Rlt_dec a b); constructor; assumption. Qed.

Lemma truediv_ok (a b : R) : b <> 0 -> truediv a b = Ok (a / b).
Proof. intro H. unfold truediv. destruct (Req_dec_T b 0); [contradiction | reflexivity]. Qed.

Lemma truediv_zero (a : R) (b : R) : b = 0 -> truediv a b = Raise ZeroDivisionError.
Proof. intro H. unfold truediv. destruct (Req_dec_T b 0); [reflexivity | contradiction]. Qed.

(** Decides the comparisons of a goal whose operands are concrete. *)
Ltac cmp :=
  repeat match goal with
  | |- context [Rleb ?a ?b] =>
      first [ rewrite (Rleb_true a b) by lra | rewrite (Rleb_false a b) by lra ]
  | |- context [Rltb ?a ?b] =>
      first [ rewrite (Rltb_true a b) by lra | rewrite (Rltb_false a b) by lra ]
  | |- context [truediv ?a ?b] =>
      first [ rewrite (truediv_ok a b) by lra | rewrite (truediv_zero a b) by lra ]
  end.

(** * The perturbation function *)

(** C7: [perturbation] is a total function of [t] and the pattern name with
    the closed forms of the spec.  "pulse" is 1 on the closed interval
    [5, 5.5] and 0 elsewhere (0 at 3, 1 at 5.2, 0 at 6); "stress" is
    [max 0 (0.8 sin (2 pi t / 12))]; "chronic" is
    [0.3 (1 + 0.1 sin (2 pi t / 24))]; "recall" is 1.2 when [t] is at
    distance less than 0.2 from one of 10, 20, 30 and 0 otherwise; any other
    pattern name gives 0.  It holds for every real [t], in particular for
    [t >= 0]. *)
Theorem perturbation_closed_forms (t : R) :
  (5 <= t <= 5.5 -> perturbation t "pulse" = 1) /\
  (~ (5 <= t <= 5.5) -> perturbation t "pulse" = 0) /\
  perturbation 3 "pulse" = 0 /\
  perturbation 5.2 "pulse" = 1 /\
  perturbation 6 "pulse" = 0 /\
  perturbation t "stress" = Rmax 0 (0.8 * sin (2 * PI * t / 12)) /\
  perturbation t "chronic" = 0.3 * (1 + 0.1 * sin (2 * PI * t / 24)) /\
  ((exists tr, In tr [10; 20; 30] /\ Rabs (t - tr) < 0.2) ->
     perturbation t "recall" = 1.2) /\
  (~ (exists tr, In tr [10; 20; 30] /\ Rabs (t - tr) < 0.2) ->
     perturbation t "recall" = 0) /\
  (forall pattern : string,
     pattern <> "pulse"%string -> pattern <> "stress"%string ->
     pattern <> "chronic"%string -> pattern <> "recall"%string ->
     perturbation t pattern = 0).
Proof.
  repeat apply conj.
  - intros [H1 H2]. unfold perturbation. simpl. now cmp.
  - intro H. unfold perturbation. simpl.
    destruct (Rleb_spec 5 t); [| reflexivity].
    destruct (Rleb_spec t 5.5); [| reflexivity].
    exfalso. apply H. split; assumption.
  - unfold perturbation. simpl. now cmp.
  - unfold perturbation. simpl. now cmp.
  - unfold perturbation. simpl. now cmp.
  - unfold perturbation. simpl.
    destruct (Rltb_spec 0 (sin (2 * PI * t / 12))) as [Hs | Hs].
    + rewrite Rmax_right; lra.
    + unfold Rmax. destruct (Rle_dec 0 (0.8 * sin (2 * PI * t / 12))); lra.
  - reflexivity.
  - intros [tr [Hin Hd]]. unfold perturbation. simpl.
    assert (E : existsb (fun tr0 => Rltb (Rabs (t - tr0)) 0.2) [10; 20; 30] = true).
    { apply existsb_exists. exists tr. split; [exact Hin | now apply Rltb_true]. }
    simpl in E. now rewrite E.
  - intro H. unfold perturbation. simpl.
    destruct (existsb (fun tr0 => Rltb (Rabs (t - tr0)) 0.2) [10; 20; 30]) eqn:E.
    + exfalso. apply H. apply existsb_exists in E. destruct E as [tr [Hin Hlt]].
      exists tr. split; [exact Hin |].
      destruct (Rltb_spec (Rabs (t - tr)) 0.2); [assumption | discriminate].
    + simpl in E. now rewrite E.
  - intros pattern H1 H2 H3 H4. unfold perturbation.
    apply String.eqb_neq in H1, H2, H3, H4.
    now rewrite H1, H2, H3, H4.
Qed.

(** * The delayed lookup *)

Lemma nth_error_in_range {A} (l : list A) (i : nat) :
  (i < length l)%nat -> exists a, nth_error l i = Some a.
Proof.
  intro H. destruct (nth_error l i) eqn:E; [eauto |].
  apply nth_error_None in E. lia.
Qed.

Lemma nth_error_bound {A} (l : list A) (i : nat) (a : A) :
  nth_error l i = Some a -> (i < length l)%nat.
Proof. intro H. apply nth_error_Some. congruence. Qed.

Lemma last_nth_error {A} (l : list A) (d : A) :
  l <> [] -> nth_error l (length l - 1) = Some (last l d).
Proof.
  induction l as [| a l IH]; [congruence |]. intros _.
  destruct l as [| b l]; [reflexivity |].
  specialize (IH ltac:(discriminate)).
  replace (length (b :: l) - 1)%nat with (length l) in IH by (simpl; lia).
  replace (length (a :: b :: l) - 1)%nat with (S (length l)) by (simpl; lia).
  change (last (a :: b :: l) d) with (last (b :: l) d).
  cbn [nth_error]. exact IH.
Qed.

Lemma increasing_lt (l : list R) (H : increasing l) (i j : nat) (a b : R) :
  (i < j)%nat -> nth_error l i = Some a -> nth_error l j = Some b -> a < b.
Proof. apply H. Qed.

Lemma increasing_le (l : list R) (i j : nat) (a b : R) :
  increasing l -> (i <= j)%nat ->
  nth_error l i = Some a -> nth_error l j = Some b -> a <= b.
Proof.
  intros Hinc Hij Ha Hb. destruct (Nat.eq_dec i j) as [-> | Hne].
  - rewrite Ha in Hb. injection Hb as ->. lra.
  - left. apply (increasing_lt _ Hinc i j); [lia | assumption | assumption].
Qed.

Lemma increasing_app_inv (l l' : list R) : increasing (l ++ l') -> increasing l.
Proof.
  intros H i j a b Hij Ha Hb. apply (H i j); [assumption | |].
  - rewrite nth_error_app1; [assumption | eapply nth_error_bound; eassumption].
  - rewrite nth_error_app1; [assumption | eapply nth_error_bound; eassumption].
Qed.

Lemma get_delayed_empty (t_delay : R) (y_hist : list R) (default : R) :
  _get_delayed t_delay [] y_hist default = Ok default.
Proof. reflexivity. Qed.

Lemma get_delayed_nonempty (t_delay : R) (t_hist y_hist : list R)
    (default t_0 : R) :
  nth_error t_hist 0 = Some t_0 ->
  _get_delayed t_delay t_hist y_hist default =
  if Rltb t_delay t_0 then Ok default
  else match bracket_loop t_delay t_hist y_hist (seq 0 (length t_hist - 1)) with
       | Some r => r
       | None => match y_hist with
                 | [] => Ok default
                 | _ :: _ => Ok (last y_hist 0)
                 end
       end.
Proof.
  intro H. destruct t_hist as [| t t_rest]; [discriminate |].
  injection H as ->. reflexivity.
Qed.

Lemma nonempty_last_default {A} (l : list A) (d d' : A) (r : A -> Py.result A) :
  l <> [] ->
  match l with [] => r d' | _ :: _ => r (last l d) end = r (last l d).
Proof. destruct l; [congruence | reflexivity]. Qed.

Lemma length_zero_nil {A} (l : list A) : length l = O -> l = [].
Proof. destruct l; [reflexivity | discriminate]. Qed.

Section Lookup.

Variables (t_delay : R) (t_hist y_hist : list R).

(** The loop passes over a stretch of indices none of whose brackets
    contains [t_delay]. *)
Lemma bracket_loop_none (k s : nat) :
  (s + k < length t_hist)%nat \/ k = O ->
  (forall i a b, (s <= i < s + k)%nat ->
     nth_error t_hist i = Some a -> nth_error t_hist (i + 1) = Some b ->
     ~ (a <= t_delay <= b)) ->
  bracket_loop t_delay t_hist y_hist (seq s k) = None.
Proof.
  revert s. induction k as [| k IH]; intros s Hlen Hno; [reflexivity |].
  destruct Hlen as [Hlen | Hlen]; [| discriminate].
  simpl seq. simpl bracket_loop.
  destruct (nth_error_in_range t_hist s) as [a Ha]; [lia |].
  destruct (nth_error_in_range t_hist (s + 1)) as [b Hb]; [lia |].
  rewrite Ha, Hb.
  assert (Hs : ~ (a <= t_delay <= b)) by (apply (Hno s); [lia | assumption | assumption]).
  destruct (Rleb_spec a t_delay) as [H1 | H1]; simpl.
  - destruct (Rleb_spec t_delay b) as [H2 | H2]; [tauto |].
    apply IH; [left; lia |]. intros i a' b' Hi. apply Hno. lia.
  - apply IH; [left; lia |]. intros i a' b' Hi. apply Hno. lia.
Qed.

(** The loop returns at the first index whose bracket contains [t_delay]. *)
Lemma bracket_loop_first (k s j : nat) (a b : R) :
  (s <= j < s + k)%nat ->
  nth_error t_hist j = Some a -> nth_error t_hist (j + 1) = Some b ->
  a <= t_delay <= b ->
  (forall i a' b', (s <= i < j)%nat ->
     nth_error t_hist i = Some a' -> nth_error t_hist (i + 1) = Some b' ->
     ~ (a' <= t_delay <= b')) ->
  bracket_loop t_delay t_hist y_hist (seq s k) =
  Some (al <- truediv (t_delay - a) (b - a) ;;
        y_i <- getitem y_hist j ;;
        y_i1 <- getitem y_hist (j + 1) ;;
        Ok ((1 - al) * y_i + al * y_i1)).
Proof.
  revert s. induction k as [| k IH]; intros s Hj Ha Hb Hin Hno; [lia |].
  simpl seq. simpl bracket_loop.
  destruct (Nat.eq_dec s j) as [-> | Hne].
  - rewrite Ha, Hb. rewrite (Rleb_true a t_delay), (Rleb_true t_delay b) by tauto.
    reflexivity.
  - assert (Hjl : (j < length t_hist)%nat) by (eapply nth_error_bound; eassumption).
    destruct (nth_error_in_range t_hist s) as [a' Ha']; [lia |].
    destruct (nth_error_in_range t_hist (s + 1)) as [b' Hb']; [lia |].
    rewrite Ha', Hb'.
    assert (Hs : ~ (a' <= t_delay <= b'))
      by (apply (Hno s); [lia | assumption | assumption]).
    destruct (Rleb_spec a' t_delay) as [H1 | H1]; simpl.
    + destruct (Rleb_spec t_delay b') as [H2 | H2]; [tauto |].
      apply IH; try assumption; [lia |]. intros i a'' b'' Hi. apply Hno. lia.
    + apply IH; try assumption; [lia |]. intros i a'' b'' Hi. apply Hno. lia.
Qed.

Hypothesis Hinc : increasing t_hist.
Hypothesis Hlen : length t_hist = length y_hist.

(** On a strictly increasing history with as many values as times, no
    iteration of the loop raises. *)
Lemma bracket_loop_returns (k s : nat) :
  (s + k < length t_hist)%nat \/ k = O ->
  bracket_loop t_delay t_hist y_hist (seq s k) = None \/
  exists v, bracket_loop t_delay t_hist y_hist (seq s k) = Some (Ok v).
Proof.
  revert s. induction k as [| k IH]; intros s Hk; [left; reflexivity |].
  destruct Hk as [Hk | Hk]; [| discriminate].
  simpl seq. simpl bracket_loop.
  destruct (nth_error_in_range t_hist s) as [a Ha]; [lia |].
  destruct (nth_error_in_range t_hist (s + 1)) as [b Hb]; [lia |].
  destruct (nth_error_in_range y_hist s) as [ya Hya]; [lia |].
  destruct (nth_error_in_range y_hist (s + 1)) as [yb Hyb]; [lia |].
  rewrite Ha, Hb.
  destruct (Rleb a t_delay && Rleb t_delay b).
  - right. assert (a < b) by (apply (increasing_lt _ Hinc s (s + 1)); [lia | assumption | assumption]).
    rewrite truediv_ok by lra. unfold getitem. rewrite Hya, Hyb. simpl. eauto.
  - apply IH. left. lia.
Qed.

(** The lookup returns a value: it does not raise on such a history. *)
Lemma get_delayed_returns (default : R) :
  exists v, _get_delayed t_delay t_hist y_hist default = Ok v.
Proof.
  destruct (Nat.eq_dec (length t_hist) 0) as [Hz | Hnz].
  - rewrite (length_zero_nil _ Hz). exists default. reflexivity.
  - destruct (nth_error_in_range t_hist 0) as [t_0 H0]; [lia |].
    rewrite (get_delayed_nonempty _ _ _ _ t_0 H0).
    destruct (Rltb t_delay t_0); [eauto |].
    destruct (bracket_loop_returns (length t_hist - 1) 0) as [H | [v H]].
    + left. lia.
    + rewrite H. destruct (y_hist); eauto.
    + rewrite H. eauto.
Qed.

(** Between two consecutive recorded times the lookup interpolates. *)
Lemma get_delayed_interpolates (default : R) (i : nat) (t_i t_i1 y_i y_i1 : R) :
  nth_error t_hist i = Some t_i -> nth_error t_hist (i + 1) = Some t_i1 ->
  nth_error y_hist i = Some y_i -> nth_error y_hist (i + 1) = Some y_i1 ->
  t_i <= t_delay <= t_i1 ->
  _get_delayed t_delay t_hist y_hist default =
  Ok (interpolate t_delay t_i t_i1 y_i y_i1).
Proof.
  intros Hti Hti1 Hyi Hyi1 Hin.
  assert (Hlt : t_i < t_i1) by (apply (increasing_lt _ Hinc i (i + 1)); [lia | assumption | assumption]).
  assert (Hi1 : (i + 1 < length t_hist)%nat) by (eapply nth_error_bound; eassumption).
  destruct (nth_error_in_range t_hist 0) as [t_0 H0]; [lia |].
  rewrite (get_delayed_nonempty _ _ _ _ t_0 H0).
  assert (H0i : t_0 <= t_i) by (apply (increasing_le t_hist 0 i); [assumption | lia | assumption | assumption]).
  rewrite Rltb_false by lra.
  destruct (Rle_lt_or_eq_dec t_i t_delay (proj1 Hin)) as [Hstrict | Heq].
  - (* the bracket at [i] is the first one to contain [t_delay] *)
    rewrite (bracket_loop_first (length t_hist - 1) 0 i t_i t_i1); try assumption; [| lia |].
    + rewrite truediv_ok by lra. unfold getitem. rewrite Hyi, Hyi1. reflexivity.
    + intros j a' b' Hj Ha' Hb' [_ Hc].
      assert (b' <= t_i) by (apply (increasing_le t_hist (j + 1) i); [assumption | lia | assumption | assumption]).
      lra.
  - destruct i as [| i'].
    + rewrite (bracket_loop_first (length t_hist - 1) 0 0 t_i t_i1); try assumption; [| lia |].
      * rewrite truediv_ok by lra. unfold getitem. rewrite Hyi, Hyi1. reflexivity.
      * intros j a' b' Hj. lia.
    + (* [t_delay] is the recorded time [t_i]: the bracket before it returns *)
      destruct (nth_error_in_range t_hist i') as [t_p Htp]; [lia |].
      destruct (nth_error_in_range y_hist i') as [y_p Hyp]; [lia |].
      replace (S i') with (i' + 1)%nat in * by lia.
      assert (Hp : t_p < t_i) by (apply (increasing_lt _ Hinc i' (i' + 1)); [lia | assumption | assumption]).
      rewrite (bracket_loop_first (length t_hist - 1) 0 i' t_p t_i); try assumption; [| lia | lra |].
      * rewrite truediv_ok by lra. unfold getitem. rewrite Hyp, Hyi.
        simpl. unfold interpolate. f_equal. subst t_delay. field. split; lra.
      * intros j a' b' Hj Ha' Hb' [_ Hc].
        assert (b' < t_i) by (apply (increasing_lt _ Hinc (j + 1) (i' + 1))%nat; [lia | assumption | assumption]).
        lra.
Qed.

(** At or beyond the last recorded time the lookup returns the last value. *)
Lemma get_delayed_beyond (default : R) :
  t_hist <> [] -> last t_hist 0 <= t_delay ->
  _get_delayed t_delay t_hist y_hist default = Ok (last y_hist 0).
Proof.
  intros Hne Hlast.
  assert (Hn : (0 < length t_hist)%nat).
  { destruct (Nat.eq_dec (length t_hist) 0) as [Hz | Hnz]; [| lia].
    exfalso. apply Hne. apply length_zero_nil. exact Hz. }
  assert (Hyne : y_hist <> []) by (intros ->; simpl in Hlen; lia).
  pose proof (last_nth_error t_hist 0 Hne) as Htl.
  pose proof (last_nth_error y_hist 0 Hyne) as Hyl.
  rewrite <- Hlen in Hyl.
  destruct (nth_error_in_range t_hist 0) as [t_0 H0]; [lia |].
  rewrite (get_delayed_nonempty _ _ _ _ t_0 H0).
  assert (H0l : t_0 <= last t_hist 0)
    by (apply (increasing_le t_hist 0 (length t_hist - 1)); [assumption | lia | assumption | assumption]).
  rewrite Rltb_false by lra.
  destruct (Rle_lt_or_eq_dec _ _ Hlast) as [Hstrict | Heq].
  - rewrite bracket_loop_none.
    + apply (nonempty_last_default y_hist 0 default Ok Hyne).
    + destruct (length t_hist); [right; reflexivity | left; lia].
    + intros j a' b' Hj Ha' Hb' [_ Hc].
      assert (b' <= last t_hist 0)
        by (apply (increasing_le t_hist (j + 1) (length t_hist - 1)); [assumption | lia | assumption | assumption]).
      lra.
  - destruct (length t_hist - 1)%nat as [| n'] eqn:En.
    + replace (length t_hist) with 1%nat by lia. simpl.
      apply (nonempty_last_default y_hist 0 default Ok Hyne).
    + destruct (nth_error_in_range t_hist n') as [t_p Htp]; [lia |].
      destruct (nth_error_in_range y_hist n') as [y_p Hyp]; [lia |].
      replace (S n') with (n' + 1)%nat in * by lia.
      assert (Hp : t_p < last t_hist 0) by (apply (increasing_lt _ Hinc n' (n' + 1)); [lia | assumption | assumption]).
      rewrite (bracket_loop_first (n' + 1) 0 n' t_p (last t_hist 0)); try assumption; [| lia | lra |].
      * rewrite truediv_ok by lra. unfold getitem. rewrite Hyp, Hyl.
        simpl. f_equal. rewrite <- Heq. field. lra.
      * intros j a' b' Hj Ha' Hb' [_ Hc].
        assert (b' < last t_hist 0) by (apply (increasing_lt _ Hinc (j + 1) (n' + 1))%nat; [lia | assumption | assumption]).
        lra.
Qed.

End Lookup.

Lemma increasing_nil : increasing [].
Proof. intros i j a b _ Ha. destruct i; discriminate. Qed.

Lemma increasing_one (a : R) : increasing [a].
Proof.
  intros i j x y Hij Hx Hy. destruct j as [| j]; [lia |].
  destruct j; discriminate.
Qed.

Lemma increasing_cons (a b : R) (l : list R) :
  a < b -> increasing (b :: l) -> increasing (a :: b :: l).
Proof.
  intros Hab H i j x y Hij Hx Hy. destruct j as [| j]; [lia |].
  simpl in Hy. destruct i as [| i].
  - injection Hx as <-.
    assert (b <= y) by (apply (increasing_le (b :: l) 0 j); [assumption | lia | reflexivity | assumption]).
    lra.
  - simpl in Hx. apply (H i j); [lia | assumption | assumption].
Qed.

(** Proves [increasing l] for a list [l] written out in full. *)
Ltac prove_increasing :=
  repeat (apply increasing_cons; [lra |]);
  first [apply increasing_one | apply increasing_nil].

Lemma increasing_three : increasing [0; 1; 2].
Proof. prove_increasing. Qed.

(** A query at a recorded time of a strictly increasing history returns
    the value recorded with it. *)
Lemma get_delayed_at_sample (t_hist y_hist : list R) (default : R)
    (k : nat) (t_k y_k : R) :
  increasing t_hist -> length t_hist = length y_hist ->
  nth_error t_hist k = Some t_k -> nth_error y_hist k = Some y_k ->
  _get_delayed t_k t_hist y_hist default = Ok y_k.
Proof.
  intros Hinc Hlen Ht Hy.
  assert (Hk : (k < length t_hist)%nat) by (eapply nth_error_bound; eassumption).
  destruct (Nat.eq_dec (k + 1) (length t_hist)) as [Hlast | Hmid].
  - assert (Hne : t_hist <> []) by (intros ->; simpl in Hk; lia).
    assert (Hyne : y_hist <> []) by (intros ->; simpl in Hlen; lia).
    pose proof (last_nth_error t_hist 0 Hne) as Htl.
    pose proof (last_nth_error y_hist 0 Hyne) as Hyl.
    replace (length t_hist - 1)%nat with k in Htl by lia.
    replace (length y_hist - 1)%nat with k in Hyl by lia.
    rewrite (get_delayed_beyond t_k t_hist y_hist Hinc Hlen default Hne).
    + congruence.
    + assert (last t_hist 0 = t_k) by congruence. lra.
  - destruct (nth_error_in_range t_hist (k + 1)) as [t_k1 Ht1]; [lia |].
    destruct (nth_error_in_range y_hist (k + 1)) as [y_k1 Hy1]; [lia |].
    assert (t_k < t_k1) by (apply (increasing_lt _ Hinc k (k + 1)); [lia | assumption | assumption]).
    rewrite (get_delayed_interpolates t_k t_hist y_hist Hinc Hlen default
               k t_k t_k1 y_k y_k1) by (assumption || lra).
    unfold interpolate. f_equal. field. lra.
Qed.

(** C5: on a history buffer with strictly increasing times (and one value
    per time), the delayed lookup returns the supplied default when the
    buffer is empty or [t_delay] is before the first recorded time, whatever
    the delay and the default; the linear interpolation of the values of the
    two bracketing samples when [t_delay] lies between two consecutive
    recorded times; and the most recently recorded value, with no
    extrapolation, when [t_delay] is at or beyond the last recorded time. *)
Theorem get_delayed_spec (t_delay : R) (t_hist y_hist : list R) (default : R) :
  increasing t_hist -> length t_hist = length y_hist ->
  (t_hist = [] \/ t_delay < hd 0 t_hist ->
   _get_delayed t_delay t_hist y_hist default = Ok default) /\
  (forall i t_i t_i1 y_i y_i1,
     nth_error t_hist i = Some t_i -> nth_error t_hist (i + 1) = Some t_i1 ->
     nth_error y_hist i = Some y_i -> nth_error y_hist (i + 1) = Some y_i1 ->
     t_i <= t_delay <= t_i1 ->
     _get_delayed t_delay t_hist y_hist default =
     Ok (interpolate t_delay t_i t_i1 y_i y_i1)) /\
  (t_hist <> [] -> last t_hist 0 <= t_delay ->
   _get_delayed t_delay t_hist y_hist default = Ok (last y_hist 0)).
Proof.
  intros Hinc Hlen. repeat apply conj.
  - intros [-> | Hlt]; [reflexivity |].
    destruct t_hist as [| t_0 t_rest]; [reflexivity |].
    simpl in Hlt. unfold _get_delayed. now rewrite Rltb_true.
  - intros i t_i t_i1 y_i y_i1. now apply get_delayed_interpolates.
  - now apply get_delayed_beyond.
Qed.

Lemma get_delayed_spec_witness :
  _get_delayed (-1) [0; 1; 2] [10; 20; 30] 7 = Ok 7 /\
  _get_delayed 0.5 [0; 1; 2] [10; 20; 30] 7 = Ok (interpolate 0.5 0 1 10 20) /\
  _get_delayed 2 [0; 1; 2] [10; 20; 30] 7 = Ok 30.
Proof.
  repeat apply conj.
  - apply (get_delayed_spec (-1) [0; 1; 2] [10; 20; 30] 7 increasing_three eq_refl).
    right. simpl. lra.
  - apply (proj1 (proj2 (get_delayed_spec 0.5 [0; 1; 2] [10; 20; 30] 7
                           increasing_three eq_refl)) 0%nat);
      try reflexivity. lra.
  - apply (proj2 (proj2 (get_delayed_spec 2 [0; 1; 2] [10; 20; 30] 7
                           increasing_three eq_refl))).
    + discriminate.
    + simpl. lra.
Defined.

(** * The derivative function *)

Lemma derivatives_ok (m : TORDModel) (state : State) (t : R)
    (u_pattern : string) (y_delayed : R) :
  _get_delayed (t - eta (p m)) (history_t m ++ [t])
    (history_y m ++ [st_y state]) (st_y state) = Ok y_delayed ->
  derivatives m state t u_pattern =
  (Ok (mkState
         (st_vx state)
         (- (omega_x (p m) ^ 2) * st_x state - gamma_x (p m) * st_vx state
          - alpha (p m) * y_delayed + mu (p m) * perturbation t u_pattern)
         (st_vy state)
         (- (omega_y (p m) ^ 2) * st_y state - gamma_y (p m) * st_vy state
          + beta (p m) * st_x state)
         (kappa (p m) * st_x state ^ 2 - lambda_ (p m) * st_theta state)),
   record_sample m t (st_x state) (st_y state)).
Proof. intro H. unfold derivatives. simpl. rewrite H. reflexivity. Qed.

Lemma derivatives_raise (m : TORDModel) (state : State) (t : R)
    (u_pattern : string) (e : exn) :
  _get_delayed (t - eta (p m)) (history_t m ++ [t])
    (history_y m ++ [st_y state]) (st_y state) = Raise e ->
  derivatives m state t u_pattern =
  (Raise e, record_sample m t (st_x state) (st_y state)).
Proof. intro H. unfold derivatives. simpl. rewrite H. reflexivity. Qed.

Lemma derivatives_model (m : TORDModel) (state : State) (t : R)
    (u_pattern : string) :
  snd (derivatives m state t u_pattern) =
  record_sample m t (st_x state) (st_y state).
Proof. reflexivity. Qed.

(** When the lookup returns, [derivatives] returns exactly the vector
    [[vx, -omega_x^2 x - gamma_x vx - alpha y_delayed + mu u(t), vy,
      -omega_y^2 y - gamma_y vy + beta x, kappa x^2 - lambda theta]],
    where [y_delayed] is the history lookup at [t - eta], made after the
    sample [(t, x, y)] has been appended and with the current [y] as the
    default.  An exception of the lookup is the exception of [derivatives];
    on a buffer whose times, [t] included, strictly increase the lookup
    returns and so does [derivatives]. *)
Lemma derivatives_formula (m : TORDModel) (state : State) (t : R)
    (u_pattern : string) :
  let x := st_x state in
  let vx := st_vx state in
  let y := st_y state in
  let vy := st_vy state in
  let theta := st_theta state in
  let m' := record_sample m t x y in
  let lookup :=
    _get_delayed (t - eta (p m)) (history_t m ++ [t]) (history_y m ++ [y]) y in
  (forall y_delayed, lookup = Ok y_delayed ->
     derivatives m state t u_pattern =
     (Ok (mkState
            vx
            (- (omega_x (p m) ^ 2) * x - gamma_x (p m) * vx
             - alpha (p m) * y_delayed + mu (p m) * perturbation t u_pattern)
            vy
            (- (omega_y (p m) ^ 2) * y - gamma_y (p m) * vy + beta (p m) * x)
            (kappa (p m) * x ^ 2 - lambda_ (p m) * theta)),
      m')) /\
  (forall e, lookup = Raise e ->
     derivatives m state t u_pattern = (Raise e, m')) /\
  (length (history_t m) = length (history_y m) ->
   increasing (history_t m ++ [t]) ->
   exists y_delayed, lookup = Ok y_delayed).
Proof.
  cbv zeta. repeat apply conj.
  - intros y_delayed H. now apply derivatives_ok.
  - intros e H. now apply derivatives_raise.
  - intros Hlen Hinc. apply get_delayed_returns; [exact Hinc |].
    rewrite !length_app. simpl. lia.
Qed.

Lemma derivatives_formula_witness :
  exists d,
    derivatives (TORDModel_init TORDParameters_default)
      default_initial_state 0 "pulse" =
    (Ok d, record_sample (TORDModel_init TORDParameters_default) 0 0.1 0.05) /\
    st_theta d = 0.05 * 0.1 ^ 2 - 0.02 * 1.
Proof.
  destruct (derivatives_formula (TORDModel_init TORDParameters_default)
              default_initial_state 0 "pulse") as [Hok [_ Hret]].
  destruct Hret as [y_delayed Hy].
  - reflexivity.
  - apply increasing_one.
  - eexists. split; [apply (Hok y_delayed Hy) | reflexivity].
Defined.

(** C2: [derivatives] does not return for every state, time and pattern.
    With a zero delay, on the buffer a first evaluation at the time [t] has
    left, a second evaluation at [t] looks the delayed value up in a bracket
    of zero width and raises [ZeroDivisionError], after appending its
    sample, instead of returning the vector of the five derivatives. *)
Theorem derivatives_raises_at_repeated_time (m : TORDModel) (state : State)
    (t y_prev : R) (u_pattern : string) :
  eta (p m) = 0 -> history_t m = [t] -> history_y m = [y_prev] ->
  derivatives m state t u_pattern =
  (Raise ZeroDivisionError, record_sample m t (st_x state) (st_y state)).
Proof.
  intros He Ht Hy. apply derivatives_raise.
  rewrite He, Ht, Hy. cbn [app].
  unfold _get_delayed. cbn [length seq Nat.sub bracket_loop nth_error Nat.add].
  rewrite Rltb_false by lra.
  rewrite (Rleb_true t (t - 0)), (Rleb_true (t - 0) t) by lra.
  cbn [andb]. now rewrite truediv_zero by lra.
Qed.

Lemma derivatives_raises_at_repeated_time_witness :
  derivatives
    (snd (derivatives (TORDModel_init (with_eta TORDParameters_default 0))
            default_initial_state 0 "pulse"))
    default_initial_state 0 "pulse" =
  (Raise ZeroDivisionError,
   record_sample
     (snd (derivatives (TORDModel_init (with_eta TORDParameters_default 0))
             default_initial_state 0 "pulse"))
     0 0.1 0.05).
Proof.
  apply (derivatives_raises_at_repeated_time
           (snd (derivatives
                   (TORDModel_init (with_eta TORDParameters_default 0))
                   default_initial_state 0 "pulse"))
           default_initial_state 0 0.05 "pulse");
    reflexivity.
Defined.

(** C3: the lookup divides by the width of the first bracket that contains
    [t_delay], with no test for a zero width.  On a buffer that starts with
    a duplicated timestamp, queried at that timestamp, Python's float
    division raises [ZeroDivisionError]; with a zero delay this is what the
    second evaluation of [derivatives] at one and the same time does. *)
Theorem get_delayed_duplicate_timestamp (y_0 y_1 default : R)
    (state state' : State) (t : R) (u_pattern : string) :
  _get_delayed 0 [0; 0] [y_0; y_1] default = Raise ZeroDivisionError /\
  let m := TORDModel_init (with_eta TORDParameters_default 0) in
  fst (derivatives (snd (derivatives m state t u_pattern)) state' t u_pattern)
  = Raise ZeroDivisionError.
Proof.
  split.
  - unfold _get_delayed. simpl. now cmp.
  - cbv zeta. rewrite derivatives_model. unfold derivatives. simpl.
    unfold _get_delayed. simpl. now cmp.
Qed.

(** * The simulator and the history buffer *)

Lemma derivatives_cases (m : TORDModel) (state : State) (t : R)
    (u_pattern : string) :
  (exists d, derivatives m state t u_pattern =
             (Ok d, record_sample m t (st_x state) (st_y state))) \/
  (exists e, derivatives m state t u_pattern =
             (Raise e, record_sample m t (st_x state) (st_y state))).
Proof.
  unfold derivatives. cbv zeta.
  destruct (_get_delayed _ _ _ _); simpl; eauto.
Qed.

(** A run only appends: the buffer after it is the buffer before it
    followed by one sample per call of [func], in call order. *)
Lemma run_history {A} (s : Solver A) (u_pattern : string) (m : TORDModel) :
  p (snd (run s u_pattern m)) = p m /\
  history_t (snd (run s u_pattern m)) =
    history_t m ++ map snd (calls s u_pattern m) /\
  history_x (snd (run s u_pattern m)) =
    history_x m ++ map (fun c => st_x (fst c)) (calls s u_pattern m) /\
  history_y (snd (run s u_pattern m)) =
    history_y m ++ map (fun c => st_y (fst c)) (calls s u_pattern m).
Proof.
  revert m. induction s as [r | y t k IH]; intro m.
  - simpl. rewrite !app_nil_r. auto.
  - cbn [run calls].
    destruct (derivatives_cases m y t u_pattern) as [[d Hd] | [e Hd]];
      rewrite Hd.
    + destruct (IH d (record_sample m t (st_x y) (st_y y))) as [Hp [Ht [Hx Hy]]].
      rewrite Hp, Ht, Hx, Hy. simpl. rewrite <- !app_assoc. auto.
    + simpl. auto.
Qed.

Lemma np_linspace_negative (start stop : R) (num : Z) :
  (num < 0)%Z -> np_linspace start stop num = Raise ValueError.
Proof. intro H. unfold np_linspace. apply Z.ltb_lt in H. now rewrite H. Qed.

Lemma length_removelast_app {A} (l : list A) (a : A) :
  l <> [] -> length (removelast l ++ [a]) = length l.
Proof.
  intro H. destruct (exists_last H) as [l' [b ->]].
  rewrite removelast_last, !length_app. reflexivity.
Qed.

(** The grid has [num] samples. *)
Lemma np_linspace_length (start stop : R) (num : Z) :
  (0 <= num)%Z ->
  exists t, np_linspace start stop num = Ok t /\ length t = Z.to_nat num.
Proof.
  intro H. unfold np_linspace.
  destruct (num <? 0)%Z eqn:E; [apply Z.ltb_lt in E; lia |].
  cbv zeta. eexists. split; [reflexivity |].
  assert (Hl : forall f : R -> R,
             length (map f (map INR (seq 0 (Z.to_nat num)))) = Z.to_nat num)
    by (intro f; now rewrite !length_map, length_seq).
  destruct (1 <? num)%Z eqn:E1.
  - apply Z.ltb_lt in E1.
    assert (E0 : (0 <? num - 1)%Z = true) by (apply Z.ltb_lt; lia).
    rewrite E0. rewrite length_removelast_app; [apply Hl |].
    intro Hnil. apply (f_equal (@length R)) in Hnil. rewrite Hl in Hnil.
    simpl in Hnil. lia.
  - destruct (0 <? num - 1)%Z; apply Hl.
Qed.

(** C4 (as the code has it): [simulate] resets the buffer, and from then
    on every evaluation of [derivatives] appends exactly its own [(t, x, y)]
    at the end and nothing is ever removed or reordered.  So the recorded
    times are the evaluation times of the integrator, in call order: the
    buffer left by one run does not depend on the buffer before it, and
    its times are strictly increasing exactly when the integrator evaluates
    at strictly increasing times. *)
Theorem simulate_history (odeint : Integrator) (m : TORDModel)
    (t_span : R * R) (n_points : Z) (initial_state : option State)
    (u_pattern : string) :
  let m' := snd (simulate odeint m t_span n_points initial_state u_pattern) in
  let cs := simulate_calls odeint m t_span n_points initial_state u_pattern in
  history_t m' = map snd cs /\
  history_x m' = map (fun c => st_x (fst c)) cs /\
  history_y m' = map (fun c => st_y (fst c)) cs /\
  (increasing (history_t m') <-> increasing (map snd cs)) /\
  (forall (A : Type) (s : Solver A) (m1 : TORDModel),
     history_t (snd (run s u_pattern m1)) =
     history_t m1 ++ map snd (calls s u_pattern m1)) /\
  (forall (y : State) (t : R) (m1 : TORDModel),
     history_t (snd (derivatives m1 y t u_pattern)) = history_t m1 ++ [t]) /\
  (forall h_x h_y h_t : list R,
     simulate odeint (mkModel (p m) h_x h_y h_t) t_span n_points
       initial_state u_pattern =
     simulate odeint m t_span n_points initial_state u_pattern).
Proof.
  cbv zeta.
  assert (H : history_t (snd (simulate odeint m t_span n_points initial_state u_pattern))
              = map snd (simulate_calls odeint m t_span n_points initial_state u_pattern) /\
              history_x (snd (simulate odeint m t_span n_points initial_state u_pattern))
              = map (fun c => st_x (fst c))
                  (simulate_calls odeint m t_span n_points initial_state u_pattern) /\
              history_y (snd (simulate odeint m t_span n_points initial_state u_pattern))
              = map (fun c => st_y (fst c))
                  (simulate_calls odeint m t_span n_points initial_state u_pattern)).
  { unfold simulate, simulate_calls. cbv zeta.
    destruct (np_linspace (fst t_span) (snd t_span) n_points) as [t | e].
    - match goal with |- context [run ?s ?u ?m0] =>
        pose proof (run_history s u m0) as [_ [Ht [Hx Hy]]];
        destruct (run s u m0) as [r m'] end.
      simpl in *. auto.
    - simpl. auto. }
  destruct H as [Ht [Hx Hy]]. repeat apply conj; try assumption.
  - now rewrite Ht.
  - now rewrite Ht.
  - intros A s m1. apply run_history.
  - reflexivity.
  - reflexivity.
Qed.

Lemma simulate_unfold (odeint : Integrator) (m : TORDModel) (t_span : R * R)
    (n_points : Z) (initial_state : option State) (u_pattern : string)
    (t : list R) :
  np_linspace (fst t_span) (snd t_span) n_points = Ok t ->
  let y0 := match initial_state with
            | None => default_initial_state
            | Some s => s
            end in
  simulate odeint m t_span n_points initial_state u_pattern =
  (fmap (fun states => (t, states))
     (fst (run (odeint y0 t) u_pattern (reset_history m))),
   snd (run (odeint y0 t) u_pattern (reset_history m))) /\
  simulate_calls odeint m t_span n_points initial_state u_pattern =
  calls (odeint y0 t) u_pattern (reset_history m).
Proof.
  intro H. unfold simulate, simulate_calls. cbv zeta. rewrite H.
  destruct (run _ _ _). split; reflexivity.
Qed.

(** One evaluation of [func] by the solver, when the lookup returns. *)
Lemma run_step {A} (y : State) (t : R) (k : State -> Solver A)
    (u_pattern : string) (m : TORDModel) (y_delayed : R) :
  _get_delayed (t - eta (p m)) (history_t m ++ [t])
    (history_y m ++ [st_y y]) (st_y y) = Ok y_delayed ->
  exists d,
    run (Func y t k) u_pattern m =
      run (k d) u_pattern (record_sample m t (st_x y) (st_y y)) /\
    calls (Func y t k) u_pattern m =
      (y, t) :: calls (k d) u_pattern (record_sample m t (st_x y) (st_y y)).
Proof.
  intro H. cbn [run calls].
  rewrite (derivatives_ok m y t u_pattern y_delayed H). eauto.
Qed.

Lemma run_map_solver {A B} (f : A -> B) (s : Solver A) (u_pattern : string)
    (m : TORDModel) :
  run (Integrators.map_solver f s) u_pattern m =
    (fmap f (fst (run s u_pattern m)), snd (run s u_pattern m)) /\
  calls (Integrators.map_solver f s) u_pattern m = calls s u_pattern m.
Proof.
  revert m. induction s as [r | y t k IH]; intro m.
  - split; reflexivity.
  - cbn [Integrators.map_solver run calls].
    destruct (derivatives_cases m y t u_pattern) as [[d Hd] | [e Hd]];
      rewrite Hd.
    + destruct (IH d (record_sample m t (st_x y) (st_y y))) as [H1 H2].
      rewrite H1, H2. split; reflexivity.
    + split; reflexivity.
Qed.

Lemma np_linspace_0_2_3 : np_linspace 0 2 3 = Ok [0; 1; 2].
Proof.
  unfold np_linspace. simpl. repeat f_equal; lra.
Qed.

Lemma np_linspace_1_0_3 : np_linspace 1 0 3 = Ok [1; 0.5; 0].
Proof.
  unfold np_linspace. simpl. repeat f_equal; lra.
Qed.

(** Evaluates a lookup on a buffer written out in full. *)
Ltac lookup_ok :=
  cbn [record_sample reset_history TORDModel_init p history_t history_y
       history_x eta TORDParameters_default app st_y st_x];
  unfold _get_delayed;
  cbn [length seq bracket_loop nth_error Nat.sub Nat.add];
  cmp; cbn [andb]; cmp; cbn [bind getitem nth_error]; reflexivity.

(** Lets the solver of the goal make its next call of [func]. *)
Ltac solver_step :=
  match goal with
  | |- context [calls (Func ?y ?t ?k) ?u ?m] =>
      let d := fresh "d" in let Hr := fresh "Hr" in let Hc := fresh "Hc" in
      edestruct (run_step y t k u m) as [d [Hr Hc]];
      [ lookup_ok | rewrite ?Hr, ?Hc; clear Hr Hc ]
  | |- context [run (Func ?y ?t ?k) ?u ?m] =>
      let d := fresh "d" in let Hr := fresh "Hr" in let Hc := fresh "Hc" in
      edestruct (run_step y t k u m) as [d [Hr Hc]];
      [ lookup_ok | rewrite ?Hr, ?Hc; clear Hr Hc ]
  end.

(** C4, as stated, fails: under the two-stage scheme, on the valid span
    (0, 2) with three grid points, [derivatives] is evaluated at the times
    0, 1, 1, 2, and the buffer records the time 1 twice. *)
Lemma simulate_heun_repeats_time :
  history_t
    (snd (simulate Integrators.heun (TORDModel_init TORDParameters_default)
            (0, 2) 3 None "pulse"))
  = [0; 1; 1; 2].
Proof.
  destruct (simulate_unfold Integrators.heun
              (TORDModel_init TORDParameters_default)
              (0, 2) 3 None "pulse" [0; 1; 2] np_linspace_0_2_3) as [Hs _].
  rewrite Hs. cbn [snd].
  destruct (run_history (Integrators.heun default_initial_state [0; 1; 2])
              "pulse" (reset_history (TORDModel_init TORDParameters_default)))
    as [_ [Ht _]].
  rewrite Ht. cbn [reset_history history_t app].
  cbn [Integrators.heun Integrators.heun_from].
  solver_step. solver_step.
  rewrite (proj2 (run_map_solver _ _ _ _)).
  solver_step. solver_step.
  rewrite !(proj2 (run_map_solver _ _ _ _)).
  reflexivity.
Qed.

(** C1, as stated, fails: on the degenerate span (1, 0) [simulate] builds
    the grid 1, 0.5, 0 and integrates over it; [derivatives] is evaluated
    (at 1 and at 0.5) and a trajectory of three states is returned. *)
Lemma simulate_degenerate_span_runs :
  exists states,
    fst (simulate Integrators.euler (TORDModel_init TORDParameters_default)
           (1, 0) 3 None "pulse") = Ok ([1; 0.5; 0], states) /\
    length states = 3%nat /\
    history_t
      (snd (simulate Integrators.euler (TORDModel_init TORDParameters_default)
              (1, 0) 3 None "pulse")) = [1; 0.5].
Proof.
  destruct (simulate_unfold Integrators.euler
              (TORDModel_init TORDParameters_default)
              (1, 0) 3 None "pulse" [1; 0.5; 0] np_linspace_1_0_3) as [Hs _].
  rewrite Hs. cbn [fst snd].
  cbn [Integrators.euler Integrators.euler_from].
  solver_step. rewrite (proj1 (run_map_solver _ _ _ _)). cbn [fst snd].
  solver_step. rewrite (proj1 (run_map_solver _ _ _ _)). cbn [fst snd run].
  eexists. split; [reflexivity |]. split; reflexivity.
Qed.

(** C1 (as the code has it): [simulate] checks none of its arguments.  A
    negative [n_points] is refused by the grid construction, with
    [ValueError], after the buffer is reset and before [derivatives] is
    evaluated.  With [n_points >= 0] the grid of [n_points] samples is built
    for any [time_span], degenerate or not, and the integrator is started on
    it from the initial state as given: the outcome of [simulate] is the
    outcome of that run. *)
Theorem simulate_validation (odeint : Integrator) (m : TORDModel)
    (t_span : R * R) (n_points : Z) (initial_state : option State)
    (u_pattern : string) :
  let y0 := match initial_state with
            | None => default_initial_state
            | Some s => s
            end in
  ((n_points < 0)%Z ->
     simulate odeint m t_span n_points initial_state u_pattern =
       (Raise ValueError, reset_history m) /\
     simulate_calls odeint m t_span n_points initial_state u_pattern = []) /\
  ((0 <= n_points)%Z ->
     exists t,
       np_linspace (fst t_span) (snd t_span) n_points = Ok t /\
       length t = Z.to_nat n_points /\
       simulate odeint m t_span n_points initial_state u_pattern =
         (fmap (fun states => (t, states))
            (fst (run (odeint y0 t) u_pattern (reset_history m))),
          snd (run (odeint y0 t) u_pattern (reset_history m))) /\
       simulate_calls odeint m t_span n_points initial_state u_pattern =
         calls (odeint y0 t) u_pattern (reset_history m)).
Proof.
  cbv zeta. split.
  - intro H. unfold simulate, simulate_calls. cbv zeta.
    rewrite (np_linspace_negative _ _ _ H). split; reflexivity.
  - intro H. destruct (np_linspace_length (fst t_span) (snd t_span) n_points H)
      as [t [Ht Hl]].
    exists t. split; [exact Ht |]. split; [exact Hl |].
    apply (simulate_unfold odeint m t_span n_points initial_state u_pattern t Ht).
Qed.

Lemma simulate_validation_witness :
  simulate Integrators.euler (TORDModel_init TORDParameters_default)
    (0, 10) (-1) None "pulse" =
  (Raise ValueError, reset_history (TORDModel_init TORDParameters_default)).
Proof.
  apply (proj1 (simulate_validation Integrators.euler
                  (TORDModel_init TORDParameters_default)
                  (0, 10) (-1) None "pulse")).
  reflexivity.
Defined.

(** * Parameter fitting *)

Section Fitting.

Variables (odeint : Jax.OdeInt) (grad : Jax.Grad) (data_t data_x : list R).

(** No iteration of the loop assigns [params]. *)
Lemma fit_loop_params (range : list nat) (params : Jax.TORDParamsJAX)
    (out : list Jax.line) :
  fst (Jax.fit_loop odeint grad data_t data_x range params out) = Ok params \/
  exists e,
    fst (Jax.fit_loop odeint grad data_t data_x range params out) = Raise e.
Proof.
  revert out. induction range as [| i range IH]; intro out.
  - left. reflexivity.
  - cbn [Jax.fit_loop].
    destruct (Jax.loss_fn odeint data_t data_x params) as [loss | e];
      [| right; exists e; reflexivity].
    destruct (grad (Jax.loss_fn odeint data_t data_x) params) as [grads | e];
      [| right; exists e; reflexivity].
    apply IH.
Qed.

(** When the loss and its gradient can be computed, the loop prints the
    same loss at every tenth iteration and returns [params]. *)
Lemma fit_loop_output (range : list nat) (params grads : Jax.TORDParamsJAX)
    (loss : Jnp.jfloat) (out : list Jax.line) :
  Jax.loss_fn odeint data_t data_x params = Ok loss ->
  grad (Jax.loss_fn odeint data_t data_x) params = Ok grads ->
  Jax.fit_loop odeint grad data_t data_x range params out =
  (Ok params,
   out ++ map (fun i => (i, loss))
            (filter (fun i => (i mod 10 =? 0)%nat) range)).
Proof.
  intros Hl Hg. revert out. induction range as [| i range IH]; intro out.
  - simpl. now rewrite app_nil_r.
  - cbn [Jax.fit_loop filter]. rewrite Hl, Hg. rewrite IH.
    destruct (i mod 10 =? 0)%nat; [| reflexivity].
    cbn [map]. now rewrite <- app_assoc.
Qed.

(** C9: the loop of [fit_to_data] computes the loss and its gradient at
    every iteration and uses neither: [params] is never assigned, so what is
    returned is [initial_params] itself, for every data set and every
    iteration budget; and the loss is printed at iterations 0, 10, 20, ...
    only, each time the loss of [initial_params]. *)
Theorem fit_to_data_returns_initial_params
    (initial_params : Jax.TORDParamsJAX) (n_iterations : Z) :
  (fst (Jax.fit_to_data odeint grad data_t data_x initial_params n_iterations)
     = Ok initial_params \/
   exists e,
     fst (Jax.fit_to_data odeint grad data_t data_x initial_params n_iterations)
     = Raise e) /\
  (forall loss grads,
     Jax.loss_fn odeint data_t data_x initial_params = Ok loss ->
     grad (Jax.loss_fn odeint data_t data_x) initial_params = Ok grads ->
     Jax.fit_to_data odeint grad data_t data_x initial_params n_iterations =
     (Ok initial_params,
      map (fun i => (i, loss))
        (filter (fun i => (i mod 10 =? 0)%nat)
           (seq 0 (Z.to_nat n_iterations))))).
Proof.
  split.
  - apply fit_loop_params.
  - intros loss grads Hl Hg. unfold Jax.fit_to_data.
    now rewrite (fit_loop_output _ _ grads loss [] Hl Hg).
Qed.

End Fitting.

(** * Rolling boundary stability *)

Lemma at_set_app {A} (pre post : list A) (a v : A) :
  Jnp.at_set (pre ++ a :: post) (length pre) v = pre ++ v :: post.
Proof. induction pre as [| b pre IH]; simpl; [reflexivity | now rewrite IH]. Qed.

(** Setting the entries of an array one index after the other is a map over
    the indices. *)
Lemma fold_at_set {A} (f : nat -> A) (k s : nat) (pre post : list A) :
  length pre = s -> length post = k ->
  fold_left (fun r i => Jnp.at_set r i (f i)) (seq s k) (pre ++ post) =
  pre ++ map f (seq s k).
Proof.
  revert s pre post. induction k as [| k IH]; intros s pre post Hpre Hpost.
  - destruct post; [reflexivity | discriminate].
  - destruct post as [| a post]; [discriminate |]. subst s.
    cbn [seq fold_left map]. rewrite at_set_app.
    replace (pre ++ f (length pre) :: post)
      with ((pre ++ [f (length pre)]) ++ post)
      by (now rewrite <- app_assoc).
    rewrite IH.
    + now rewrite <- app_assoc.
    + rewrite length_app. simpl. lia.
    + simpl in Hpost. lia.
Qed.

Lemma rolling_std_map (arr : list R) (w : Z) :
  Jax.rolling_std arr w =
  map (fun i =>
         Jnp.std (Jnp.slice arr
                    (Z.max 0 (Z.of_nat i - w / 2))
                    (Z.min (Z.of_nat (length arr)) (Z.of_nat i + w / 2))))
    (seq 0 (length arr)).
Proof.
  unfold Jax.rolling_std. cbv zeta.
  apply (fold_at_set _ (length arr) 0 [] (repeat (Some 0) (length arr)));
    [reflexivity | apply repeat_length].
Qed.

(** With a half-width of at least one, the window around an index of the
    array holds at least that index. *)
Lemma window_nonempty (arr : list R) (w : Z) (i : nat) :
  (2 <= w)%Z -> (i < length arr)%nat ->
  Jnp.slice arr (Z.max 0 (Z.of_nat i - w / 2))
    (Z.min (Z.of_nat (length arr)) (Z.of_nat i + w / 2)) <> [].
Proof.
  intros Hw Hi.
  assert (Hh : (1 <= w / 2)%Z) by (apply Z.div_le_lower_bound; lia).
  unfold Jnp.slice, Jnp.slice_bound. cbv zeta.
  destruct (Z.max 0 (Z.of_nat i - w / 2) <? 0)%Z eqn:E1;
    [apply Z.ltb_lt in E1; lia |].
  destruct (Z.min (Z.of_nat (length arr)) (Z.of_nat i + w / 2) <? 0)%Z eqn:E2;
    [apply Z.ltb_lt in E2; lia |].
  intro Hnil. apply (f_equal (@length R)) in Hnil.
  rewrite length_firstn, length_skipn in Hnil. simpl in Hnil. lia.
Qed.

Lemma std_nonempty (l : list R) :
  l <> [] -> exists s, Jnp.std l = Some s /\ 0 <= s.
Proof.
  intro H. destruct l as [| a l]; [congruence |].
  unfold Jnp.std. cbn [Jnp.mean map option_map].
  eexists. split; [reflexivity | apply sqrt_pos].
Qed.

(** For every theta series and every int window of at least 2, the output
    of the body has the length of the input and each of its elements is a
    number in the half-open interval (0, 1]. *)
Lemma boundary_stability_range (theta : list R) (window : Z) :
  (2 <= window)%Z ->
  length (Jax.boundary_stability_body theta window) = length theta /\
  Forall (fun v => exists s, v = Some s /\ 0 < s <= 1)
    (Jax.boundary_stability_body theta window).
Proof.
  intro Hw. unfold Jax.boundary_stability_body. cbv zeta.
  rewrite rolling_std_map. split.
  - now rewrite !length_map, length_seq.
  - apply Forall_forall. intros v Hv.
    apply in_map_iff in Hv. destruct Hv as [sd [<- Hsd]].
    apply in_map_iff in Hsd. destruct Hsd as [i [<- Hi]].
    apply in_seq in Hi.
    destruct (std_nonempty _ (window_nonempty theta window i Hw ltac:(lia)))
      as [s [-> Hs]].
    cbn [option_map]. eexists. split; [reflexivity |].
    assert (H1 : 0 < 1 + s) by lra.
    split.
    + apply Rdiv_lt_0_compat; lra.
    + apply (Rmult_le_reg_r (1 + s)); [exact H1 |].
      unfold Rdiv. rewrite Rmult_assoc, Rinv_l by lra. lra.
Qed.

Lemma boundary_stability_range_witness :
  length (Jax.boundary_stability_body [1; 2; 4] 100) = 3%nat /\
  Forall (fun v => exists s, v = Some s /\ 0 < s <= 1)
    (Jax.boundary_stability_body [1; 2; 4] 100).
Proof.
  apply (boundary_stability_range [1; 2; 4] 100). lia.
Defined.

Lemma window_one_empty (arr : list R) (i : nat) :
  (i < length arr)%nat ->
  Jnp.slice arr (Z.max 0 (Z.of_nat i - 1 / 2))
    (Z.min (Z.of_nat (length arr)) (Z.of_nat i + 1 / 2)) = [].
Proof.
  intro Hi. change (1 / 2)%Z with 0%Z.
  unfold Jnp.slice, Jnp.slice_bound. cbv zeta.
  destruct (Z.max 0 (Z.of_nat i - 0) <? 0)%Z eqn:E1;
    [apply Z.ltb_lt in E1; lia |].
  destruct (Z.min (Z.of_nat (length arr)) (Z.of_nat i + 0) <? 0)%Z eqn:E2;
    [apply Z.ltb_lt in E2; lia |].
  match goal with |- firstn ?k _ = [] => replace k with O by lia end.
  reflexivity.
Qed.

Lemma map_const_seq {A} (v : A) (k s : nat) :
  map (fun _ => v) (seq s k) = repeat v k.
Proof.
  revert s. induction k as [| k IH]; intro s; simpl; [reflexivity |].
  now rewrite IH.
Qed.

(** With the width 1 the half-width [1 // 2] is 0, every window
    [arr[i:i]] is empty and leaves out [i] itself, its standard deviation
    is NaN, and every element of the output of the body is NaN. *)
Lemma boundary_stability_body_window_one (theta : list R) :
  Jax.boundary_stability_body theta 1 = repeat None (length theta).
Proof.
  unfold Jax.boundary_stability_body. cbv zeta.
  rewrite rolling_std_map, map_map.
  rewrite <- (map_const_seq None (length theta) 0).
  apply map_ext_in. intros i Hi. apply in_seq in Hi.
  rewrite window_one_empty by lia. reflexivity.
Qed.

(** C10: a call of [compute_boundary_stability] that passes a window, of
    whatever width, on a series that is not empty raises [TypeError] (the
    window is traced) instead of returning values in (0, 1]; so does the
    call on the series 1, 2 with the window 1.  And were the window not
    traced, the width 1 would give NaN at every index: the window
    [arr[i - w // 2 : i + w // 2]] is empty. *)
Theorem boundary_stability_window_raises (theta_0 : R) (theta : list R)
    (window : Z) :
  Jax.compute_boundary_stability (theta_0 :: theta) (Some window)
    = Raise TypeError /\
  Jax.compute_boundary_stability [1; 2] (Some 1%Z) = Raise TypeError /\
  Jax.boundary_stability_body (theta_0 :: theta) 1
    = repeat None (S (length theta)).
Proof.
  split; [reflexivity |]. split; [reflexivity |].
  apply (boundary_stability_body_window_one (theta_0 :: theta)).
Qed.

(** * Coherence *)


Lemma norm_sqrt (x : list R) : Jnp.norm x = sqrt (sumsq x).
Proof. reflexivity. Qed.







Lemma sumsq_opp (a : list R) : sumsq (map Ropp a) = sumsq a.
Proof.
  unfold sumsq. induction a as [| v a IH]; simpl; [reflexivity |].
  rewrite IH. lra.
Qed.





(** * The time grid *)



(** With one point the grid is [start] alone. *)
Lemma np_linspace_one (start stop : R) :
  exists t, np_linspace start stop 1 = Ok [t] /\ t = start.
Proof. eexists. split; [reflexivity |]. simpl. lra. Qed.

(** The boundary component of the vector field points inwards on the
    boundary [theta = 0] when [kappa >= 0]. *)
Lemma dtheta_nonneg_at_zero (m : TORDModel) (state d : State) (t : R)
    (u_pattern : string) :
  0 <= kappa (p m) -> st_theta state = 0 ->
  fst (derivatives m state t u_pattern) = Ok d -> 0 <= st_theta d.
Proof.
  intros Hk Hz Hd. unfold derivatives in Hd. cbv zeta in Hd. cbn [fst] in Hd.
  destruct (_get_delayed _ _ _ _) as [yd | e]; [| discriminate].
  cbn [bind] in Hd. injection Hd as <-. cbn [st_theta record_sample p].
  rewrite Hz. pose proof (pow2_ge_0 (st_x state)).
  assert (0 <= kappa (p m) * st_x state ^ 2) by (apply Rmult_le_pos; assumption).
  lra.
Qed.

(** * Further properties of the perturbation functions *)

Lemma get_perturbation_fn_eq (pattern : string) (t : R) :
  Jax.get_perturbation_fn pattern t = perturbation t pattern.
Proof.
  unfold Jax.get_perturbation_fn, perturbation.
  destruct (pattern =? "pulse")%string; [reflexivity |].
  destruct (pattern =? "stress")%string; [reflexivity |].
  destruct (pattern =? "chronic")%string; [reflexivity |].
  destruct (pattern =? "recall")%string; reflexivity.
Qed.

(** X2: whatever the pattern name and the time, the forcing lies in
    [0, 1.2]; "stress" stays in [0, 0.8] and "chronic" in [0.27, 0.33]. *)
Theorem perturbation_bounds (t : R) (pattern : string) :
  0 <= perturbation t pattern <= 1.2 /\
  0 <= perturbation t "stress" <= 0.8 /\
  0.27 <= perturbation t "chronic" <= 0.33.
Proof.
  assert (Hs : 0 <= perturbation t "stress" <= 0.8).
  { unfold perturbation. simpl.
    pose proof (SIN_bound (2 * PI * t / 12)) as [_ Hb].
    destruct (Rltb_spec 0 (sin (2 * PI * t / 12))); lra. }
  assert (Hc : 0.27 <= perturbation t "chronic" <= 0.33).
  { unfold perturbation. simpl.
    pose proof (SIN_bound (2 * PI * t / 24)) as [Ha Hb]. lra. }
  split; [| split; assumption].
  unfold perturbation in *. simpl in Hs, Hc.
  destruct (pattern =? "pulse")%string.
  { destruct (Rleb 5 t && Rleb t 5.5); lra. }
  destruct (pattern =? "stress")%string; [lra |].
  destruct (pattern =? "chronic")%string; [lra |].
  destruct (pattern =? "recall")%string; [| lra].
  cbv zeta. destruct (existsb _ _); lra.
Qed.

Lemma sin_shift_2PI (x : R) : sin (x + 2 * PI) = sin x.
Proof. rewrite sin_plus, cos_2PI, sin_2PI. lra. Qed.

(** X3: "stress" repeats every 12 time units and "chronic" every 24. *)
Theorem perturbation_periods (t : R) :
  perturbation (t + 12) "stress" = perturbation t "stress" /\
  perturbation (t + 24) "chronic" = perturbation t "chronic".
Proof.
  unfold perturbation. simpl. split.
  - replace (2 * PI * (t + 12) / 12) with (2 * PI * t / 12 + 2 * PI) by field.
    now rewrite sin_shift_2PI.
  - replace (2 * PI * (t + 24) / 24) with (2 * PI * t / 24 + 2 * PI) by field.
    now rewrite sin_shift_2PI.
Qed.

(** * Further properties of the delayed lookup *)

Section LookupCases.

Variables (t_delay : R) (t_hist y_hist : list R).

(** Among the brackets of a stretch of indices either none contains
    [t_delay] or there is a first one that does. *)
Lemma first_bracket (k s : nat) :
  (s + k < length t_hist)%nat \/ k = O ->
  (forall i a b, (s <= i < s + k)%nat ->
     nth_error t_hist i = Some a -> nth_error t_hist (i + 1) = Some b ->
     ~ (a <= t_delay <= b)) \/
  (exists j a b, (s <= j < s + k)%nat /\
     nth_error t_hist j = Some a /\ nth_error t_hist (j + 1) = Some b /\
     a <= t_delay <= b /\
     forall i a' b', (s <= i < j)%nat ->
       nth_error t_hist i = Some a' -> nth_error t_hist (i + 1) = Some b' ->
       ~ (a' <= t_delay <= b')).
Proof.
  revert s. induction k as [| k IH]; intros s Hk.
  - left. intros i a b Hi. lia.
  - destruct Hk as [Hk | Hk]; [| discriminate].
    destruct (nth_error_in_range t_hist s) as [a Ha]; [lia |].
    destruct (nth_error_in_range t_hist (s + 1)) as [b Hb]; [lia |].
    destruct (Rle_dec a t_delay) as [H1 | H1];
      [destruct (Rle_dec t_delay b) as [H2 | H2] |].
    + right. exists s, a, b.
      split; [lia |]. split; [exact Ha |]. split; [exact Hb |].
      split; [split; assumption |].
      intros i a' b' Hi. lia.
    + destruct (IH (S s) ltac:(left; lia))
        as [Hno | [j [a' [b' [Hj [Ha' [Hb' [Hin Hfirst]]]]]]]].
      * left. intros i a' b' Hi Ha' Hb'.
        destruct (Nat.eq_dec i s) as [-> | Hne].
        -- rewrite Ha in Ha'. rewrite Hb in Hb'.
           injection Ha' as <-. injection Hb' as <-. tauto.
        -- apply (Hno i); [lia | assumption | assumption].
      * right. exists j, a', b'.
        repeat (split; [first [assumption | lia] |]).
        intros i a'' b'' Hi Ha'' Hb''.
        destruct (Nat.eq_dec i s) as [-> | Hne].
        -- rewrite Ha in Ha''. rewrite Hb in Hb''.
           injection Ha'' as <-. injection Hb'' as <-. tauto.
        -- apply (Hfirst i); [lia | assumption | assumption].
    + destruct (IH (S s) ltac:(left; lia))
        as [Hno | [j [a' [b' [Hj [Ha' [Hb' [Hin Hfirst]]]]]]]].
      * left. intros i a' b' Hi Ha' Hb'.
        destruct (Nat.eq_dec i s) as [-> | Hne].
        -- rewrite Ha in Ha'. injection Ha' as <-. tauto.
        -- apply (Hno i); [lia | assumption | assumption].
      * right. exists j, a', b'.
        repeat (split; [first [assumption | lia] |]).
        intros i a'' b'' Hi Ha'' Hb''.
        destruct (Nat.eq_dec i s) as [-> | Hne].
        -- rewrite Ha in Ha''. injection Ha'' as <-. tauto.
        -- apply (Hfirst i); [lia | assumption | assumption].
Qed.

Hypothesis Hlen : length t_hist = length y_hist.

(** The three ways the lookup ends on a buffer with one value per time,
    whatever the order of its times: the default; the last value, when no
    bracket contains [t_delay]; or the interpolation on the first bracket
    that contains it. *)
Lemma get_delayed_cases (default : R) :
  (_get_delayed t_delay t_hist y_hist default = Ok default /\
   (t_hist = [] \/ exists t_0, nth_error t_hist 0 = Some t_0 /\ t_delay < t_0))
  \/
  (exists t_0, nth_error t_hist 0 = Some t_0 /\ t_0 <= t_delay /\
     (forall i a b, (i + 1 < length t_hist)%nat ->
        nth_error t_hist i = Some a -> nth_error t_hist (i + 1) = Some b ->
        ~ (a <= t_delay <= b)) /\
     y_hist <> [] /\
     _get_delayed t_delay t_hist y_hist default = Ok (last y_hist 0))
  \/
  (exists t_0 j a b y_a y_b,
     nth_error t_hist 0 = Some t_0 /\ t_0 <= t_delay /\
     nth_error t_hist j = Some a /\ nth_error t_hist (j + 1) = Some b /\
     a <= t_delay <= b /\
     (forall i a' b', (i < j)%nat ->
        nth_error t_hist i = Some a' -> nth_error t_hist (i + 1) = Some b' ->
        ~ (a' <= t_delay <= b')) /\
     nth_error y_hist j = Some y_a /\ nth_error y_hist (j + 1) = Some y_b /\
     _get_delayed t_delay t_hist y_hist default =
       (al <- truediv (t_delay - a) (b - a) ;;
        Ok ((1 - al) * y_a + al * y_b))).
Proof.
  destruct (Nat.eq_dec (length t_hist) 0) as [Hz | Hnz].
  { left. rewrite (length_zero_nil _ Hz). split; [reflexivity | now left]. }
  destruct (nth_error_in_range t_hist 0) as [t_0 H0]; [lia |].
  rewrite (get_delayed_nonempty _ _ _ _ t_0 H0).
  destruct (Rltb_spec t_delay t_0) as [Hlt | Hge].
  { left. split; [reflexivity | right; eauto]. }
  assert (Hyne : y_hist <> []) by (intros ->; simpl in Hlen; lia).
  destruct (first_bracket (length t_hist - 1) 0 ltac:(left; lia))
    as [Hno | [j [a [b [Hj [Ha [Hb [Hin Hfirst]]]]]]]].
  - right. left. exists t_0. split; [exact H0 |]. split; [lra |].
    split; [intros i a b Hi; apply Hno; lia |]. split; [exact Hyne |].
    rewrite bracket_loop_none; [| left; lia | exact Hno].
    apply (nonempty_last_default y_hist 0 default Ok Hyne).
  - right. right.
    assert (Hj1 : (j + 1 < length t_hist)%nat) by (eapply nth_error_bound; eassumption).
    destruct (nth_error_in_range y_hist j) as [y_a Hya]; [lia |].
    destruct (nth_error_in_range y_hist (j + 1)) as [y_b Hyb]; [lia |].
    exists t_0, j, a, b, y_a, y_b.
    repeat (split; [first [assumption | lra] |]).
    split; [intros i a' b' Hi; apply Hfirst; lia |].
    split; [exact Hya |]. split; [exact Hyb |].
    rewrite (bracket_loop_first t_delay t_hist y_hist _ 0 j a b Hj Ha Hb Hin Hfirst).
    unfold getitem. rewrite Hya, Hyb. reflexivity.
Qed.

End LookupCases.

Lemma nondecreasing_nil : nondecreasing [].
Proof. intros i j a b _ Ha. destruct i; discriminate. Qed.

Lemma nondecreasing_one (a : R) : nondecreasing [a].
Proof.
  intros i j x y Hij Hx Hy.
  destruct i as [| i]; [| destruct i; discriminate].
  destruct j as [| j]; [| destruct j; discriminate].
  injection Hx as <-. injection Hy as <-. lra.
Qed.

Lemma nondecreasing_cons (a b : R) (l : list R) :
  a <= b -> nondecreasing (b :: l) -> nondecreasing (a :: b :: l).
Proof.
  intros Hab H i j x y Hij Hx Hy. destruct i as [| i].
  - injection Hx as <-. destruct j as [| j].
    + injection Hy as <-. lra.
    + simpl in Hy.
      assert (b <= y) by (apply (H 0%nat j); [lia | reflexivity | assumption]).
      lra.
  - destruct j as [| j]; [lia |]. simpl in Hx, Hy.
    apply (H i j); [lia | assumption | assumption].
Qed.

(** Proves [nondecreasing l] for a list [l] written out in full. *)
Ltac prove_nondecreasing :=
  repeat (apply nondecreasing_cons; [lra |]);
  first [apply nondecreasing_one | apply nondecreasing_nil].

Lemma convex_between (al y_a y_b : R) :
  0 <= al <= 1 ->
  Rmin y_a y_b <= (1 - al) * y_a + al * y_b <= Rmax y_a y_b.
Proof.
  intros [H0 H1]. unfold Rmin, Rmax. destruct (Rle_dec y_a y_b); split; nra.
Qed.

Lemma last_In {A} (l : list A) (d : A) : l <> [] -> In (last l d) l.
Proof.
  intro H. apply (nth_error_In l (length l - 1)). now apply last_nth_error.
Qed.

Lemma get_delayed_raises_nondecreasing (t_delay : R)
    (t_hist y_hist : list R) (default : R) :
  nondecreasing t_hist -> length t_hist = length y_hist ->
  (forall e, _get_delayed t_delay t_hist y_hist default = Raise e ->
     e = ZeroDivisionError) /\
  (_get_delayed t_delay t_hist y_hist default = Raise ZeroDivisionError <->
   nth_error t_hist 0 = Some t_delay /\ nth_error t_hist 1 = Some t_delay).
Proof.
  intros Hnd Hlen.
  destruct (get_delayed_cases t_delay t_hist y_hist Hlen default)
    as [[Hr Hc] | [[t_0 [H0 [Hge [Hno [Hyne Hr]]]]]
                  | [t_0 [j [a [b [y_a [y_b [H0 [Hge [Ha [Hb [Hin [Hfirst
                       [Hya [Hyb Hr]]]]]]]]]]]]]]]].
  - rewrite Hr. split; [discriminate |]. split; [discriminate |].
    intros [H0 H1]. exfalso. destruct Hc as [-> | [t_0 [Ht0 Hlt]]].
    + discriminate.
    + rewrite H0 in Ht0. injection Ht0 as <-. lra.
  - rewrite Hr. split; [discriminate |]. split; [discriminate |].
    intros [H0' H1]. exfalso.
    apply (Hno 0%nat t_delay t_delay);
      [apply nth_error_bound in H1; simpl; lia | assumption | assumption | lra].
  - rewrite Hr. destruct (Req_dec_T (b - a) 0) as [Hz | Hnz].
    + rewrite truediv_zero by assumption. cbn [bind].
      split; [intros e He; now injection He as <- |].
      split; [intros _ | reflexivity].
      assert (Hab : a = t_delay /\ b = t_delay) by lra.
      destruct Hab as [-> ->].
      destruct j as [| j]; [split; assumption |].
      exfalso. destruct (nth_error_in_range t_hist j) as [a' Ha'];
        [apply nth_error_bound in Ha; lia |].
      replace (S j) with (j + 1)%nat in Ha by lia.
      apply (Hfirst j a' t_delay); [lia | assumption | assumption |].
      split; [| lra].
      apply (Hnd j (j + 1)%nat); [lia | assumption | assumption].
    + rewrite truediv_ok by assumption. cbn [bind].
      split; [discriminate |]. split; [discriminate |].
      intros [H0' H1]. exfalso.
      destruct j as [| j].
      * change (0 + 1)%nat with 1%nat in Hb.
        rewrite H0' in Ha. rewrite H1 in Hb.
        injection Ha as <-. injection Hb as <-. lra.
      * apply (Hfirst 0%nat t_delay t_delay); [lia | assumption | assumption | lra].
Qed.

(** X4: on a buffer with one value per time, in whatever order the times
    were recorded, the lookup raises nothing but [ZeroDivisionError]; and
    when the recorded times never decrease it raises exactly when the first
    two recorded times are both equal to [t_delay]. *)
Theorem get_delayed_raises_iff (t_delay : R) (t_hist y_hist : list R)
    (default : R) :
  length t_hist = length y_hist ->
  (forall e, _get_delayed t_delay t_hist y_hist default = Raise e ->
     e = ZeroDivisionError) /\
  (nondecreasing t_hist ->
   (_get_delayed t_delay t_hist y_hist default = Raise ZeroDivisionError <->
    nth_error t_hist 0 = Some t_delay /\ nth_error t_hist 1 = Some t_delay)).
Proof.
  intro Hlen. split.
  - intros e He.
    destruct (get_delayed_cases t_delay t_hist y_hist Hlen default)
      as [[Hr _] | [[t_0 [_ [_ [_ [_ Hr]]]]]
                   | [t_0 [j [a [b [y_a [y_b [_ [_ [_ [_ [_ [_
                        [_ [_ Hr]]]]]]]]]]]]]]]];
      rewrite Hr in He; try discriminate He.
    destruct (Req_dec_T (b - a) 0) as [Hz | Hnz].
    + rewrite truediv_zero in He by assumption. cbn [bind] in He.
      now injection He as <-.
    + rewrite truediv_ok in He by assumption. discriminate He.
  - intro Hnd.
    apply (get_delayed_raises_nondecreasing t_delay t_hist y_hist default
             Hnd Hlen).
Qed.

Lemma get_delayed_raises_iff_witness :
  _get_delayed 0 [0; 0; 1] [1; 2; 3] 7 = Raise ZeroDivisionError.
Proof.
  apply (proj2 (get_delayed_raises_iff 0 [0; 0; 1] [1; 2; 3] 7 eq_refl)
           ltac:(prove_nondecreasing)).
  split; reflexivity.
Defined.

(** X5: the lookup never extrapolates.  On any buffer with one value per
    time, in whatever order the times were recorded, a returned value is
    the default or lies between two recorded values. *)
Theorem get_delayed_no_extrapolation (t_delay : R) (t_hist y_hist : list R)
    (default v : R) :
  length t_hist = length y_hist ->
  _get_delayed t_delay t_hist y_hist default = Ok v ->
  v = default \/
  exists y_a y_b, In y_a y_hist /\ In y_b y_hist /\
                  Rmin y_a y_b <= v <= Rmax y_a y_b.
Proof.
  intros Hlen Hv.
  destruct (get_delayed_cases t_delay t_hist y_hist Hlen default)
    as [[Hr Hc] | [[t_0 [H0 [Hge [Hno [Hyne Hr]]]]]
                  | [t_0 [j [a [b [y_a [y_b [H0 [Hge [Ha [Hb [Hin [Hfirst
                       [Hya [Hyb Hr]]]]]]]]]]]]]]]];
    rewrite Hr in Hv.
  - left. congruence.
  - right. injection Hv as <-.
    exists (last y_hist 0), (last y_hist 0).
    split; [now apply last_In |]. split; [now apply last_In |].
    unfold Rmin, Rmax. destruct (Rle_dec _ _); lra.
  - right. exists y_a, y_b.
    split; [eapply nth_error_In; eassumption |].
    split; [eapply nth_error_In; eassumption |].
    destruct (Req_dec_T (b - a) 0) as [Hz | Hnz].
    + rewrite truediv_zero in Hv by assumption. discriminate.
    + rewrite truediv_ok in Hv by assumption. cbn [bind] in Hv.
      injection Hv as <-. apply convex_between.
      assert (0 < b - a) by lra. split.
      * apply Rmult_le_pos; [lra |]. left. now apply Rinv_0_lt_compat.
      * apply (Rmult_le_reg_r (b - a)); [assumption |].
        unfold Rdiv. rewrite Rmult_assoc, Rinv_l by lra. lra.
Qed.

Lemma get_delayed_no_extrapolation_witness :
  3 = 7 \/
  exists y_a y_b, In y_a [1; 2; 3] /\ In y_b [1; 2; 3] /\
                  Rmin y_a y_b <= 3 <= Rmax y_a y_b.
Proof.
  apply (get_delayed_no_extrapolation 5 [0; 2; 1] [1; 2; 3] 7 3 eq_refl).
  unfold _get_delayed. simpl. now cmp.
Defined.

Lemma no_bracket_beyond (t_delay : R) (t_hist : list R) (t_0 : R) :
  nth_error t_hist 0 = Some t_0 -> t_0 <= t_delay ->
  (forall i a b, (i + 1 < length t_hist)%nat ->
     nth_error t_hist i = Some a -> nth_error t_hist (i + 1) = Some b ->
     ~ (a <= t_delay <= b)) ->
  forall i a, nth_error t_hist i = Some a -> a <= t_delay.
Proof.
  intros H0 Hge Hno. induction i as [| i IH]; intros a Ha.
  - rewrite H0 in Ha. injection Ha as <-. exact Hge.
  - destruct (nth_error_in_range t_hist i) as [a' Ha'];
      [apply nth_error_bound in Ha; lia |].
    specialize (IH a' Ha').
    replace (S i) with (i + 1)%nat in Ha by lia.
    destruct (Rle_dec a t_delay) as [H | H]; [exact H | exfalso].
    apply (Hno i a' a); [apply nth_error_bound in Ha; lia | assumption | assumption |].
    lra.
Qed.

(** X6: a value once resolved does not change as the run goes on.  When
    the recorded times strictly increase, also with the new sample, a lookup
    at a time not after the last recorded one gives the same result before
    and after the sample is appended. *)
Theorem get_delayed_append_stable (t_delay : R) (t_hist y_hist : list R)
    (t' y' default : R) :
  increasing (t_hist ++ [t']) -> length t_hist = length y_hist ->
  t_hist <> [] -> t_delay <= last t_hist 0 ->
  _get_delayed t_delay (t_hist ++ [t']) (y_hist ++ [y']) default =
  _get_delayed t_delay t_hist y_hist default.
Proof.
  intros Hinc' Hlen Hne Hle.
  pose proof (increasing_app_inv _ _ Hinc') as Hinc.
  assert (Hlen' : length (t_hist ++ [t']) = length (y_hist ++ [y']))
    by (rewrite !length_app; simpl; lia).
  assert (Hyne : y_hist <> []) by (intros ->; destruct t_hist; [congruence | discriminate]).
  pose proof (last_nth_error t_hist 0 Hne) as Htl.
  pose proof (last_nth_error y_hist 0 Hyne) as Hyl.
  assert (Hn : (0 < length t_hist)%nat) by (apply nth_error_bound in Htl; lia).
  destruct (get_delayed_cases t_delay t_hist y_hist Hlen default)
    as [[Hr Hc] | [[t_0 [H0 [Hge [Hno [_ Hr]]]]]
                  | [t_0 [j [a [b [y_a [y_b [H0 [Hge [Ha [Hb [Hin [Hfirst
                       [Hya [Hyb _]]]]]]]]]]]]]]]].
  - rewrite Hr. destruct Hc as [-> | [t_0 [H0 Hlt]]]; [congruence |].
    rewrite (get_delayed_nonempty _ _ _ _ t_0)
      by (rewrite nth_error_app1 by lia; exact H0).
    now rewrite Rltb_true.
  - rewrite Hr.
    assert (Heq : last t_hist 0 = t_delay).
    { pose proof (no_bracket_beyond t_delay t_hist t_0 H0 Hge Hno _ _ Htl). lra. }
    rewrite <- Heq.
    rewrite (get_delayed_at_sample (t_hist ++ [t']) (y_hist ++ [y']) default
               (length t_hist - 1) (last t_hist 0) (last y_hist 0));
      try assumption; [reflexivity | |].
    + rewrite nth_error_app1 by lia. exact Htl.
    + rewrite nth_error_app1 by lia. rewrite Hlen. exact Hyl.
  - assert (Hj : (j + 1 < length t_hist)%nat) by (eapply nth_error_bound; eassumption).
    rewrite (get_delayed_interpolates t_delay t_hist y_hist Hinc Hlen default
               j a b y_a y_b) by assumption.
    apply (get_delayed_interpolates t_delay _ _ Hinc' Hlen' default j a b y_a y_b);
      try assumption; rewrite nth_error_app1 by lia; assumption.
Qed.

Lemma get_delayed_append_stable_witness :
  _get_delayed 1 ([0; 1] ++ [2]) ([10; 20] ++ [30]) 7 =
  _get_delayed 1 [0; 1] [10; 20] 7.
Proof.
  apply (get_delayed_append_stable 1 [0; 1] [10; 20] 2 30 7).
  - apply increasing_three.
  - reflexivity.
  - discriminate.
  - simpl. lra.
Defined.

(** * Further properties of the derivative function and the simulator *)

(** The lookup on a buffer that holds the current sample alone. *)
Lemma get_delayed_single (t_delay t y default : R) :
  _get_delayed t_delay [t] [y] default =
  Ok (if Rltb t_delay t then default else y).
Proof. unfold _get_delayed. simpl. destruct (Rltb t_delay t); reflexivity. Qed.

(** X7: as long as the delayed time [t - eta] is before the first recorded
    time, and on the first evaluation after a reset whatever [eta] is, the
    delayed model computes the derivative of the no-delay JAX model: the
    delayed value is the current [y]. *)
Theorem derivatives_without_history (m : TORDModel) (state : State) (t : R)
    (u_pattern : string) :
  history_t m = [] \/ t - eta (p m) < hd 0 (history_t m) ->
  derivatives m state t u_pattern =
  (Ok (Jax.derivatives_no_delay (to_jax (p m)) state t
         (Jax.get_perturbation_fn u_pattern)),
   record_sample m t (st_x state) (st_y state)).
Proof.
  intro H.
  assert (Hy : _get_delayed (t - eta (p m)) (history_t m ++ [t])
                 (history_y m ++ [st_y state]) (st_y state) = Ok (st_y state)).
  { destruct (history_t m) as [| t_0 t_rest] eqn:Et.
    - destruct (history_y m) as [| y_0 y_rest].
      + cbn [app]. rewrite get_delayed_single.
        destruct (Rltb _ _); reflexivity.
      + unfold _get_delayed. cbn [app length Nat.sub seq bracket_loop].
        destruct (Rltb _ _); [reflexivity |].
        cbn [app]. f_equal.
        change (last (y_0 :: y_rest ++ [st_y state]) 0)
          with (last ((y_0 :: y_rest) ++ [st_y state]) 0).
        apply last_last.
    - destruct H as [H | H]; [discriminate |]. simpl in H.
      unfold _get_delayed. cbn [app]. now rewrite Rltb_true. }
  rewrite (derivatives_ok m state t u_pattern (st_y state) Hy).
  unfold Jax.derivatives_no_delay. cbv zeta.
  rewrite get_perturbation_fn_eq. reflexivity.
Qed.

Lemma derivatives_without_history_witness :
  derivatives (TORDModel_init TORDParameters_default) default_initial_state
    0 "pulse" =
  (Ok (Jax.derivatives_no_delay (to_jax TORDParameters_default)
         default_initial_state 0 (Jax.get_perturbation_fn "pulse")),
   record_sample (TORDModel_init TORDParameters_default) 0 0.1 0.05).
Proof.
  apply (derivatives_without_history (TORDModel_init TORDParameters_default)
           default_initial_state 0 "pulse").
  left. reflexivity.
Defined.

(** X8: with a zero delay, a solver that evaluates the right-hand side a
    second time at its first time makes the run, and so [simulate], end in
    [ZeroDivisionError], whatever the states and the pattern. *)
Theorem run_zero_delay_repeated_time {A} (m : TORDModel) (y_0 : State)
    (t_0 : R) (y_1 : State -> State) (k : State -> State -> Solver A)
    (u_pattern : string) :
  eta (p m) = 0 ->
  fst (run (Func y_0 t_0 (fun d => Func (y_1 d) t_0 (k d))) u_pattern
         (reset_history m))
  = Raise ZeroDivisionError.
Proof.
  intro He.
  destruct (run_step y_0 t_0 (fun d => Func (y_1 d) t_0 (k d)) u_pattern
              (reset_history m) (st_y y_0)) as [d [Hr _]].
  { cbn [reset_history p history_t history_y app]. rewrite He.
    rewrite get_delayed_single. now rewrite Rltb_false by lra. }
  rewrite Hr. cbn [run].
  rewrite (derivatives_raise _ (y_1 d) t_0 u_pattern ZeroDivisionError);
    [reflexivity |].
  cbn [record_sample reset_history p history_t history_y app]. rewrite He.
  unfold _get_delayed. cbn [length seq Nat.sub bracket_loop nth_error Nat.add].
  rewrite Rltb_false by lra.
  rewrite (Rleb_true t_0 (t_0 - 0)), (Rleb_true (t_0 - 0) t_0) by lra.
  cbn [andb]. now rewrite truediv_zero by lra.
Qed.

Lemma run_zero_delay_repeated_time_witness :
  fst (run (Func default_initial_state 0
              (fun d => Func default_initial_state 0
                          (fun _ => Done (Ok tt))))
         "pulse"
         (reset_history (TORDModel_init (with_eta TORDParameters_default 0))))
  = Raise ZeroDivisionError.
Proof.
  apply (run_zero_delay_repeated_time
           (TORDModel_init (with_eta TORDParameters_default 0))
           default_initial_state 0 (fun _ => default_initial_state)
           (fun _ _ => Done (Ok tt)) "pulse").
  reflexivity.
Defined.

Lemma simulate_keeps_params (odeint : Integrator) (m : TORDModel)
    (t_span : R * R) (n_points : Z) (initial_state : option State)
    (u_pattern : string) :
  p (snd (simulate odeint m t_span n_points initial_state u_pattern)) = p m.
Proof.
  unfold simulate. cbv zeta.
  destruct (np_linspace (fst t_span) (snd t_span) n_points) as [t | e];
    [| reflexivity].
  match goal with |- context [run ?s ?u ?m0] =>
    pose proof (run_history s u m0) as [Hp _];
    destruct (run s u m0) as [r m'] end.
  cbn [snd] in *. rewrite Hp. reflexivity.
Qed.

(** X9: whatever the integrator does, [simulate] leaves the parameters of
    the model untouched and the three history lists of equal length. *)
Theorem simulate_keeps_histories_parallel (odeint : Integrator)
    (m : TORDModel) (t_span : R * R) (n_points : Z)
    (initial_state : option State) (u_pattern : string) :
  let m' := snd (simulate odeint m t_span n_points initial_state u_pattern) in
  p m' = p m /\
  length (history_x m') = length (history_t m') /\
  length (history_y m') = length (history_t m').
Proof.
  cbv zeta. split; [apply simulate_keeps_params |].
  unfold simulate. cbv zeta.
  destruct (np_linspace (fst t_span) (snd t_span) n_points) as [t | e].
  - match goal with |- context [run ?s ?u ?m0] =>
      pose proof (run_history s u m0) as [_ [Ht [Hx Hy]]];
      destruct (run s u m0) as [r m'] end.
    cbn [snd] in *. rewrite Ht, Hx, Hy.
    cbn [reset_history history_t history_x history_y app].
    now rewrite !length_map.
  - cbn [snd reset_history history_t history_x history_y]. auto.
Qed.

(** X10: a model object can be reused.  Simulating again on the object a
    first simulation has left, with the same arguments, gives the same
    trajectory and leaves the same history. *)
Theorem simulate_again (odeint : Integrator) (m : TORDModel)
    (t_span : R * R) (n_points : Z) (initial_state : option State)
    (u_pattern : string) :
  simulate odeint
    (snd (simulate odeint m t_span n_points initial_state u_pattern))
    t_span n_points initial_state u_pattern =
  simulate odeint m t_span n_points initial_state u_pattern.
Proof.
  pose proof (simulate_keeps_params odeint m t_span n_points initial_state
                u_pattern) as Hp.
  set (m' := snd (simulate odeint m t_span n_points initial_state u_pattern)) in *.
  unfold simulate. cbv zeta.
  assert (Hr : reset_history m' = reset_history m)
    by (unfold reset_history; now rewrite Hp).
  now rewrite Hr.
Qed.


(** * The trajectory [simulate] returns *)










(** X12: with a non-negative reinforcement rate the boundary component of
    the derivative is never below the pure decay [- lambda theta]; in
    particular it is non-negative where [theta = 0]. *)
Theorem dtheta_lower_bound (m : TORDModel) (state d : State) (t : R)
    (u_pattern : string) :
  0 <= kappa (p m) ->
  fst (derivatives m state t u_pattern) = Ok d ->
  - lambda_ (p m) * st_theta state <= st_theta d /\
  (st_theta state = 0 -> 0 <= st_theta d).
Proof.
  intros Hk Hd. unfold derivatives in Hd. cbv zeta in Hd. cbn [fst] in Hd.
  destruct (_get_delayed _ _ _ _) as [yd | e]; [| discriminate].
  cbn [bind] in Hd. injection Hd as <-. cbn [st_theta record_sample p].
  pose proof (pow2_ge_0 (st_x state)).
  assert (0 <= kappa (p m) * st_x state ^ 2) by (apply Rmult_le_pos; assumption).
  split; [lra |]. intro Hz. rewrite Hz. lra.
Qed.

Lemma dtheta_lower_bound_witness :
  exists d,
    fst (derivatives (TORDModel_init TORDParameters_default)
           (mkState 0.1 0 0.05 0 0) 0 "pulse") = Ok d /\
    0 <= st_theta d.
Proof.
  assert (H : fst (derivatives (TORDModel_init TORDParameters_default)
                     (mkState 0.1 0 0.05 0 0) 0 "pulse")
              = Ok (Jax.derivatives_no_delay (to_jax TORDParameters_default)
                      (mkState 0.1 0 0.05 0 0) 0
                      (Jax.get_perturbation_fn "pulse"))).
  { rewrite (derivatives_ok _ _ _ _ 0.05); [reflexivity |].
    cbn [TORDModel_init p history_t history_y app st_y TORDParameters_default eta].
    rewrite get_delayed_single. now rewrite Rltb_true by lra. }
  eexists. split; [exact H |].
  apply (proj2 (dtheta_lower_bound (TORDModel_init TORDParameters_default)
                  (mkState 0.1 0 0.05 0 0) _ 0 "pulse"
                  ltac:(simpl; lra) H)).
  reflexivity.
Defined.

(** X13: the default parameters and the four scenario presets keep every
    parameter strictly positive, and no preset has a delay above the
    default half hour. *)
Theorem presets_positive (q : TORDParameters) :
  In q [TORDParameters_default; get_uv_triage_params; get_engram_params;
        get_hpa_stress_params; get_development_params] ->
  (0 < omega_x q /\ 0 < omega_y q /\ 0 < gamma_x q /\ 0 < gamma_y q /\
   0 < alpha q /\ 0 < beta q /\ 0 < kappa q /\ 0 < lambda_ q /\
   0 < eta q /\ 0 < mu q) /\
  eta q <= 0.5.
Proof.
  pose proof PI_RGT_0 as Hpi.
  intros [<- | [<- | [<- | [<- | [<- | []]]]]]; simpl; repeat split; lra.
Qed.

Lemma presets_positive_witness :
  0 < kappa get_engram_params /\ eta get_uv_triage_params <= 0.5.
Proof.
  split.
  - apply (presets_positive get_engram_params). simpl. tauto.
  - apply (presets_positive get_uv_triage_params). simpl. tauto.
Defined.

(** * Further properties of the metrics *)

Lemma sum_abs_nonneg (l : list R) : 0 <= Jnp.sum (map Rabs l).
Proof.
  unfold Jnp.sum. induction l as [| a l IH]; simpl; [lra |].
  pose proof (Rabs_pos a). lra.
Qed.

Lemma sum_abs_scale (c : R) (l : list R) :
  Jnp.sum (map Rabs (map (Rmult c) l)) = Rabs c * Jnp.sum (map Rabs l).
Proof.
  unfold Jnp.sum. induction l as [| a l IH]; simpl; [lra |].
  rewrite IH, Rabs_mult. lra.
Qed.

Lemma sum_abs_zero (l : list R) :
  Jnp.sum (map Rabs l) = 0 <-> Forall (fun v => v = 0) l.
Proof.
  pose proof sum_abs_nonneg as Hnn. unfold Jnp.sum in *.
  induction l as [| a l IH]; simpl.
  - split; [constructor | reflexivity].
  - pose proof (Rabs_pos a) as Ha. pose proof (Hnn l) as Hl.
    split.
    + intro H. assert (Rabs a = 0) by lra.
      constructor.
      * destruct (Req_dec_T a 0) as [Hz | Hnz]; [exact Hz |].
        apply Rabs_no_R0 in Hnz. contradiction.
      * apply IH. lra.
    + intro H. inversion H as [| ? ? H1 H2]; subst.
      rewrite Rabs_R0. apply IH in H2. lra.
Qed.

(** X14: the repair efficiency needs no common length of its two series
    and is never negative; it scales with the absolute value of a factor
    applied to the repair series; and it is zero when the repair series is
    zero throughout (in particular when it is empty). *)
Theorem repair_efficiency_properties (y u : list R) :
  0 <= Jax.compute_repair_efficiency y u /\
  (forall c, Jax.compute_repair_efficiency (map (Rmult c) y) u
             = Rabs c * Jax.compute_repair_efficiency y u) /\
  (Forall (fun v => v = 0) y -> Jax.compute_repair_efficiency y u = 0).
Proof.
  unfold Jax.compute_repair_efficiency. cbv zeta.
  pose proof (sum_abs_nonneg y) as Hy. pose proof (sum_abs_nonneg u) as Hu.
  assert (Hden : 0 < Jnp.sum (map Rabs u) + 1e-10) by lra.
  split; [| split].
  - apply Rmult_le_pos; [exact Hy |]. left. now apply Rinv_0_lt_compat.
  - intro c. rewrite sum_abs_scale. unfold Rdiv. ring.
  - intro H. apply sum_abs_zero in H. rewrite H. unfold Rdiv. lra.
Qed.

Lemma dot_sum_comm (x y : list R) :
  Jnp.sum (map (fun ab => fst ab * snd ab) (combine x y)) =
  Jnp.sum (map (fun ab => fst ab * snd ab) (combine y x)).
Proof.
  unfold Jnp.sum. revert y. induction x as [| a x IH]; intro y.
  - destruct y; reflexivity.
  - destruct y as [| b y]; [reflexivity |]. simpl.
    rewrite (IH y). lra.
Qed.

Lemma dot_sum_opp_r (x y : list R) :
  Jnp.sum (map (fun ab => fst ab * snd ab) (combine x (map Ropp y))) =
  - Jnp.sum (map (fun ab => fst ab * snd ab) (combine x y)).
Proof.
  unfold Jnp.sum. revert y. induction x as [| a x IH]; intro y; [simpl; lra |].
  destruct y as [| b y]; [simpl; lra |]. simpl.
  rewrite (IH y). lra.
Qed.

(** X15: the coherence does not depend on the order of its two arguments
    nor on the sign of either of them, and series of different lengths are
    refused with [TypeError]. *)
Theorem compute_coherence_symmetry (x y : list R) :
  Jax.compute_coherence x y = Jax.compute_coherence y x /\
  Jax.compute_coherence x (map Ropp y) = Jax.compute_coherence x y /\
  (length x <> length y -> Jax.compute_coherence x y = Raise TypeError).
Proof.
  unfold Jax.compute_coherence, Jnp.dot. rewrite length_map.
  destruct (Nat.eqb_spec (length x) (length y)) as [He | Hne].
  - rewrite <- He, Nat.eqb_refl. cbn [bind]. repeat apply conj.
    + rewrite (dot_sum_comm x y), (Rmult_comm (Jnp.norm x)). reflexivity.
    + rewrite dot_sum_opp_r, Rabs_Ropp.
      rewrite (norm_sqrt (map Ropp y)), sumsq_opp, <- norm_sqrt. reflexivity.
    + intro H. contradiction.
  - assert (Hne' : (length y =? length x)%nat = false)
      by (apply Nat.eqb_neq; congruence).
    rewrite Hne'. repeat apply conj; reflexivity.
Qed.

(** X16: a call of [compute_boundary_stability] that leaves the window
    out returns, for every theta series, as many values as the series has,
    each of them a number in [0, 1]: with the default width no window is
    empty. *)
Theorem boundary_stability_default (theta : list R) :
  exists stability,
    Jax.compute_boundary_stability theta None = Ok stability /\
    length stability = length theta /\
    Forall (fun v => exists s, v = Some s /\ 0 <= s <= 1) stability.
Proof.
  exists (Jax.boundary_stability_body theta 100).
  split; [reflexivity |].
  destruct (boundary_stability_range theta 100 ltac:(lia)) as [Hl Hr].
  split; [exact Hl |].
  apply (Forall_impl _ (P := fun v => exists s, v = Some s /\ 0 < s <= 1));
    [| exact Hr].
  intros v [x [Hv Hx]]. exists x. split; [exact Hv | lra].
Qed.

(** * Trajectory export *)

Lemma skipn_nth_error_cons {A} (l : list A) (s : nat) (a : A) :
  nth_error l s = Some a -> skipn s l = a :: skipn (S s) l.
Proof.
  revert l. induction s as [| s IH]; intros l H.
  - destruct l; [discriminate |]. injection H as ->. reflexivity.
  - destruct l as [| b l]; [discriminate |]. simpl in H.
    change (skipn (S s) (b :: l)) with (skipn s l). now rewrite (IH l H).
Qed.

Lemma write_rows_seq (t : list R) (states : list State) (k s : nat)
    (rows : list (list cell)) :
  (s + k)%nat = length t -> (s <= length states)%nat ->
  write_rows t states (seq s k) rows =
  (if (length t <=? length states)%nat then Ok tt else Raise IndexError,
   rows ++ map (fun ts => map Number (fst ts :: tolist (snd ts)))
             (combine (skipn s t) (skipn s states))).
Proof.
  revert s rows. induction k as [| k IH]; intros s rows Hk Hs.
  - rewrite Nat.add_0_r in Hk. subst s.
    rewrite skipn_all. cbn [seq write_rows combine map]. rewrite app_nil_r.
    apply Nat.leb_le in Hs. now rewrite Hs.
  - cbn [seq write_rows].
    destruct (nth_error_in_range t s) as [t_s Ht]; [lia |].
    unfold getitem at 1. rewrite Ht.
    destruct (Nat.eq_dec s (length states)) as [He | Hne].
    + assert (Hnone : nth_error states s = None)
        by (apply nth_error_None; lia).
      unfold getitem. rewrite Hnone.
      assert (Hgt : (length t <=? length states)%nat = false)
        by (apply Nat.leb_gt; lia).
      rewrite Hgt. rewrite (skipn_all2 states) by lia.
      rewrite combine_nil. cbn [map]. now rewrite app_nil_r.
    + destruct (nth_error_in_range states s) as [s_s Hst]; [lia |].
      unfold getitem. rewrite Hst.
      rewrite IH by lia.
      rewrite (skipn_nth_error_cons t s t_s Ht).
      rewrite (skipn_nth_error_cons states s s_s Hst).
      cbn [combine map fst snd app]. now rewrite <- app_assoc.
Qed.

(** X17: [save_trajectory] writes the header and then one row
    [t[i], x, v_x, y, v_y, theta] per time point, in time order.  It
    succeeds exactly when there is a state for every time point (states beyond
    the last time point are left out); otherwise it raises [IndexError]
    after the rows of the states there are have been written. *)
Theorem save_trajectory_rows (t : list R) (states : list State) :
  save_trajectory t states =
  (if (length t <=? length states)%nat then Ok tt else Raise IndexError,
   csv_header ::
   map (fun ts => map Number (fst ts :: tolist (snd ts))) (combine t states))
  /\
  length (snd (save_trajectory t states))
  = S (Nat.min (length t) (length states)).
Proof.
  assert (H : save_trajectory t states =
    (if (length t <=? length states)%nat then Ok tt else Raise IndexError,
     csv_header ::
     map (fun ts => map Number (fst ts :: tolist (snd ts))) (combine t states))).
  { unfold save_trajectory. rewrite write_rows_seq by lia. reflexivity. }
  split; [exact H |].
  rewrite H. cbn [snd length]. now rewrite length_map, length_combine.
Qed.

(** * Parameter sweep and fitting *)

(** X19: the JAX model never reads the delay: two parameter sets that
    agree on every parameter but [eta] have the same derivative and the
    same simulation. *)
Theorem jax_simulate_ignores_eta (odeint : Jax.OdeInt)
    (q q' : Jax.TORDParamsJAX) (t_span : R * R) (n_points : Z)
    (initial_state state : State) (u_pattern : string) (t : R)
    (u_fn : R -> R) :
  Jax.omega_x q = Jax.omega_x q' -> Jax.omega_y q = Jax.omega_y q' ->
  Jax.gamma_x q = Jax.gamma_x q' -> Jax.gamma_y q = Jax.gamma_y q' ->
  Jax.alpha q = Jax.alpha q' -> Jax.beta q = Jax.beta q' ->
  Jax.kappa q = Jax.kappa q' -> Jax.lambda_ q = Jax.lambda_ q' ->
  Jax.mu q = Jax.mu q' ->
  Jax.derivatives_no_delay q state t u_fn
  = Jax.derivatives_no_delay q' state t u_fn /\
  Jax.simulate odeint q t_span n_points initial_state u_pattern
  = Jax.simulate odeint q' t_span n_points initial_state u_pattern.
Proof.
  intros H1 H2 H3 H4 H5 H6 H7 H8 H9.
  unfold Jax.simulate, Jax.derivatives_no_delay. cbv zeta.
  rewrite H1, H2, H3, H4, H5, H6, H7, H8, H9. split; reflexivity.
Qed.

Lemma jax_simulate_ignores_eta_witness :
  Jax.derivatives_no_delay Jax.TORDParamsJAX_default default_initial_state 0
    (fun _ => 0)
  = Jax.derivatives_no_delay
      (Jax.mkParamsJAX (2 * PI / 24) (2 * PI / 4) 0.1 0.15 0.3 0.4 0.05 0.02
         2 0.2)
      default_initial_state 0 (fun _ => 0).
Proof.
  apply (jax_simulate_ignores_eta (fun _ y0 ts => Ok (map (fun _ => y0) ts))
           Jax.TORDParamsJAX_default
           (Jax.mkParamsJAX (2 * PI / 24) (2 * PI / 4) 0.1 0.15 0.3 0.4 0.05
              0.02 2 0.2)
           (0, 1) 2 default_initial_state default_initial_state "pulse" 0
           (fun _ => 0));
    reflexivity.
Defined.



(** X21: the edges of [fit_to_data].  With no iteration to run it returns
    [initial_params] and prints nothing, without looking at the data; with
    at least one iteration and no data it raises [IndexError] before
    anything is printed. *)
Theorem fit_to_data_edges (odeint : Jax.OdeInt) (grad : Jax.Grad)
    (data_t data_x : list R) (initial_params : Jax.TORDParamsJAX)
    (n_iterations : Z) :
  ((n_iterations <= 0)%Z ->
   Jax.fit_to_data odeint grad data_t data_x initial_params n_iterations
   = (Ok initial_params, [])) /\
  ((1 <= n_iterations)%Z ->
   Jax.fit_to_data odeint grad [] data_x initial_params n_iterations
   = (Raise IndexError, [])).
Proof.
  split; intro H; unfold Jax.fit_to_data.
  - replace (Z.to_nat n_iterations) with O by lia. reflexivity.
  - destruct (Z.to_nat n_iterations) as [| n] eqn:E; [lia |]. reflexivity.
Qed.





(** X24: flattening a parameter set for a JAX transformation and
    unflattening it gives the parameter set back: the ten children are in
    the order of the constructor's parameters.  So two parameter sets with
    the same children are the same. *)
Theorem tree_flatten_round_trip (q q' : Jax.TORDParamsJAX) :
  Jax.tree_unflatten (snd (Jax.tree_flatten q)) (fst (Jax.tree_flatten q))
  = Ok q /\
  length (fst (Jax.tree_flatten q)) = 10%nat /\
  (Jax.tree_flatten q = Jax.tree_flatten q' -> q = q').
Proof.
  assert (Hrt : forall r,
            Jax.tree_unflatten (snd (Jax.tree_flatten r))
              (fst (Jax.tree_flatten r)) = Ok r)
    by (intro r; destruct r; reflexivity).
  split; [apply Hrt |]. split; [reflexivity |].
  intro H. pose proof (Hrt q) as Hq. rewrite H, Hrt in Hq.
  now injection Hq.
Qed.
